(** * lumina-disk-manager: the device-state tracking core

    A shallow embedding of [manager.h] / [manager.cpp]: the [Device] object
    with its [mount], [unmount], [eject] and [updateDeviceProperties] slots,
    and the [Manager] registry with [scanDevices], [deviceAdded],
    [deviceRemoved], [setupDBus] and [checkUDisks].

    Every call of the [uDisks2] helper namespace is a round trip to the
    external UDisks2 service.  The service is a parameter of the whole
    development: a type [W] of states of the outside world, and one function
    per helper that gives the answer together with the world after the call.
    Qt signals are recorded, in program order, in a trace next to the helper
    calls that were made. *)

From Stdlib Require Import String Ascii ZArith.
From stdpp Require Import base option list gmap sets strings.

Local Open Scope string_scope.
Local Open Scope list_scope.

#[local] Set Warnings "-clear-no-such-hyp".

(** ** Qt strings *)

(** [QString::isEmpty]. *)
Definition isEmpty (s : string) : bool :=
  match s with
  | EmptyString => true
  | String _ _ => false
  end.

(** [QString::startsWith]: [startsWith s p] is [s.startsWith(p)]. *)
Definition startsWith (s p : string) : bool := String.prefix p s.

(** [QString::split(sep)] for a one-character separator, keeping empty
    parts (the Qt default): the result is never the empty list. *)
Fixpoint split (sep : ascii) (s : string) : list string :=
  match s with
  | EmptyString => [EmptyString]
  | String c rest =>
      if Ascii.eqb c sep then EmptyString :: split sep rest
      else match split sep rest with
           | part :: parts => String c part :: parts
           | [] => [String c EmptyString]
           end
  end.

(** [QStringList::takeLast] on a temporary: only the value matters. *)
Definition takeLast (l : list string) : string := List.last l EmptyString.

(** [QDBusInterface(service, path, interface, connection)]: what the handle
    designates.  Whether it is valid is a fact about the world. *)
Record QDBusInterface := {
  service : string;
  object : string;
  interface : string
}.

(** ** The service adapter ([udisks2.h]) and the bus *)

Module uDisks2.

(** The helper calls, as they appear in a trace. *)
Inductive Request :=
| GetDevices
| GetDrivePath (path : string)
| GetDeviceName (drive : string)
| IsRemovable (drive : string)
| GetMountPoint (path : string)
| GetFileSystem (path : string)
| IsOptical (drive : string)
| HasMedia (drive : string)
| OpticalDataTracks (drive : string)
| OpticalAudioTracks (drive : string)
| OpticalMediaIsBlank (drive : string)
| HasPartition (path : string)
| MountDevice (path : string)
| UnmountDevice (path : string)
| EjectDevice (drive : string).

(** [udisks2.h] is not among the sources of this development: its
    constants and helpers are parameters.  [isConnected] is
    [QDBusConnection::systemBus().isConnected()] and [isValid] is
    [QDBusInterface::isValid()]; both read the world and leave it as it
    is. *)
Class Service (W : Type) := {
  DBUS_SERVICE : string;
  DBUS_PATH : string;
  DBUS_OBJMANAGER : string;
  isConnected : W -> bool;
  isValid : QDBusInterface -> W -> bool;
  getDevices : W -> list string * W;
  getDrivePath : string -> W -> string * W;
  getDeviceName : string -> W -> string * W;
  isRemovable : string -> W -> bool * W;
  getMountPoint : string -> W -> string * W;
  getFileSystem : string -> W -> string * W;
  isOptical : string -> W -> bool * W;
  hasMedia : string -> W -> bool * W;
  opticalDataTracks : string -> W -> Z * W;
  opticalAudioTracks : string -> W -> Z * W;
  opticalMediaIsBlank : string -> W -> bool * W;
  hasPartition : string -> W -> bool * W;
  mountDevice : string -> W -> string * W;
  unmountDevice : string -> W -> string * W;
  ejectDevice : string -> W -> string * W
}.

End uDisks2.

(** ** Computations that talk to the world and leave a trace *)

Definition IO (W E A : Type) : Type := W -> A * W * list E.

#[global] Instance IO_ret {W E} : MRet (IO W E) :=
  fun A (a : A) w => (a, w, []).

#[global] Instance IO_bind {W E} : MBind (IO W E) :=
  fun A B (f : A -> IO W E B) (m : IO W E A) w =>
    let '(a, w1, t1) := m w in
    let '(b, w2, t2) := f a w1 in
    (b, w2, t1 ++ t2).

(** Run a computation recorded with events [E] inside one recorded with
    events [F]. *)
Definition relabel {W E F A} (g : E -> F) (m : IO W E A) : IO W F A :=
  fun w => let '(a, w1, t) := m w in (a, w1, g <$> t).

(** ** class Device *)

Module Device.

Record t := {
  name : string;
  path : string;
  dev : string;
  drive : string;
  mountpoint : string;
  filesystem : string;
  isOptical : bool;
  isRemovable : bool;
  hasMedia : bool;
  opticalDataTracks : Z;
  opticalAudioTracks : Z;
  isBlankDisc : bool;
  hasPartition : bool;
  dbus : QDBusInterface
}.

Inductive signal :=
| mediaChanged (devicePath : string) (mediaPresent : bool)
| mountpointChanged (devicePath : string) (deviceMountpoint : string)
| nameChanged (devicePath : string) (deviceName : string)
| errorMessage (devicePath : string) (deviceError : string).

Inductive event :=
| Call (r : uDisks2.Request)
| Emit (s : signal).

Section Methods.
Context {W : Type} {udisks : uDisks2.Service W}.

Definition call {A} (r : uDisks2.Request) (f : W -> A * W)
  : IO W event A :=
  fun w => let '(a, w1) := f w in (a, w1, [Call r]).

Definition emit (s : signal) : IO W event unit :=
  fun w => (tt, w, [Emit s]).

(** [dbus->isValid()] *)
Definition valid (i : QDBusInterface) : IO W event bool :=
  fun w => (uDisks2.isValid i w, w, []).

Definition when (b : bool) (m : IO W event unit) : IO W event unit :=
  if b then m else mret tt.

(** [Device::updateDeviceProperties], lines 66-96. *)
Definition updateDeviceProperties (d : t) : IO W event t :=
  ok ← valid (dbus d);
  if negb ok then mret d else
  let hadMedia := hasMedia d in
  let lastMountpoint := mountpoint d in
  let lastName := name d in
  drive' ← call (uDisks2.GetDrivePath (path d))
                (uDisks2.getDrivePath (path d));
  name' ← call (uDisks2.GetDeviceName drive')
               (uDisks2.getDeviceName drive');
  let dev' := takeLast (split "/" (path d)) in
  isRemovable' ← call (uDisks2.IsRemovable drive')
                      (uDisks2.isRemovable drive');
  mountpoint' ← call (uDisks2.GetMountPoint (path d))
                     (uDisks2.getMountPoint (path d));
  filesystem' ← call (uDisks2.GetFileSystem (path d))
                     (uDisks2.getFileSystem (path d));
  isOptical' ← call (uDisks2.IsOptical drive')
                    (uDisks2.isOptical drive');
  hasMedia' ← call (uDisks2.HasMedia drive')
                   (uDisks2.hasMedia drive');
  opticalDataTracks' ← call (uDisks2.OpticalDataTracks drive')
                            (uDisks2.opticalDataTracks drive');
  opticalAudioTracks' ← call (uDisks2.OpticalAudioTracks drive')
                             (uDisks2.opticalAudioTracks drive');
  isBlankDisc' ← call (uDisks2.OpticalMediaIsBlank drive')
                      (uDisks2.opticalMediaIsBlank drive');
  hasPartition' ← call (uDisks2.HasPartition (path d))
                       (uDisks2.hasPartition (path d));
  let d' := {| name := name';
               path := path d;
               dev := dev';
               drive := drive';
               mountpoint := mountpoint';
               filesystem := filesystem';
               isOptical := isOptical';
               isRemovable := isRemovable';
               hasMedia := hasMedia';
               opticalDataTracks := opticalDataTracks';
               opticalAudioTracks := opticalAudioTracks';
               isBlankDisc := isBlankDisc';
               hasPartition := hasPartition';
               dbus := dbus d |} in
  when (negb (Bool.eqb hadMedia (hasMedia d')))
       (emit (mediaChanged (path d') (hasMedia d')));;
  when (negb (String.eqb lastMountpoint (mountpoint d')))
       (emit (mountpointChanged (path d') (mountpoint d')));;
  when (negb (String.eqb lastName (name d')))
       (emit (nameChanged (path d') (name d')));;
  mret d'.

(** [Device::Device], lines 13-29: the members' initial values, the
    handle on the [Block] interface of the object, then a first
    refresh. *)
Definition new (block : string) : IO W event t :=
  updateDeviceProperties
    {| name := EmptyString;
       path := block;
       dev := EmptyString;
       drive := EmptyString;
       mountpoint := EmptyString;
       filesystem := EmptyString;
       isOptical := false;
       isRemovable := false;
       hasMedia := false;
       opticalDataTracks := 0;
       opticalAudioTracks := 0;
       isBlankDisc := false;
       hasPartition := false;
       dbus := {| service := uDisks2.DBUS_SERVICE;
                  object := block;
                  interface := uDisks2.DBUS_SERVICE +:+ ".Block" |} |}.

(** [Device::mount], lines 31-40. *)
Definition mount (d : t) : IO W event t :=
  ok ← valid (dbus d);
  if negb ok || negb (isEmpty (mountpoint d)) then mret d else
  reply ← call (uDisks2.MountDevice (path d))
               (uDisks2.mountDevice (path d));
  if negb (isEmpty reply) then
    emit (errorMessage (path d) reply);;
    mret d
  else updateDeviceProperties d.

(** [Device::eject], lines 55-64.  [tr] is taken without a translator
    installed, so it gives back its argument. *)
Definition eject (d : t) : IO W event t :=
  ok ← valid (dbus d);
  if negb ok then mret d else
  reply ← call (uDisks2.EjectDevice (drive d))
               (uDisks2.ejectDevice (drive d));
  d ← updateDeviceProperties d;
  if negb (isEmpty reply) then
    let reply :=
      if isEmpty reply then "Failed to eject " +:+ name d else reply in
    emit (errorMessage (path d) reply);;
    mret d
  else mret d.

(** [Device::unmount], lines 42-53. *)
Definition unmount (d : t) : IO W event t :=
  ok ← valid (dbus d);
  if negb ok || isEmpty (mountpoint d) then mret d else
  reply ← call (uDisks2.UnmountDevice (path d))
               (uDisks2.unmountDevice (path d));
  d ← updateDeviceProperties d;
  if negb (isEmpty reply) || negb (isEmpty (mountpoint d)) then
    let reply :=
      if isEmpty reply then "Failed to umount " +:+ name d else reply in
    emit (errorMessage (path d) reply);;
    mret d
  else if isOptical d then eject d
  else mret d.

(** [Device::handlePropertiesChanged], lines 98-103: both arguments
    are unused. *)
Definition handlePropertiesChanged (d : t) : IO W event t :=
  updateDeviceProperties d.

End Methods.

(** What a trace shows. *)
Definition signals (tr : list event) : list signal :=
  omap (fun e => match e with Emit s => Some s | Call _ => None end) tr.

Definition requests (tr : list event) : list uDisks2.Request :=
  omap (fun e => match e with Call r => Some r | Emit _ => None end) tr.

Definition isError (s : signal) : bool :=
  match s with
  | errorMessage _ _ => true
  | _ => false
  end.

Definition isEject (r : uDisks2.Request) : bool :=
  match r with
  | uDisks2.EjectDevice _ => true
  | _ => false
  end.

Definition signalPath (s : signal) : string :=
  match s with
  | mediaChanged p _ | mountpointChanged p _
  | nameChanged p _ | errorMessage p _ => p
  end.

End Device.

(** ** class Manager *)

Module Manager.

(** The address of a [Device] object ([Device*]). *)
Definition addr := positive.

(** The members of [Manager].  [dbus] starts as the null pointer
    ([None]); the 60 second [timer] only decides when [checkUDisks]
    runs. *)
Record t := {
  devices : gmap string addr;
  dbus : option QDBusInterface
}.

(** The manager and the [Device] objects it has allocated. *)
Record state := {
  self : t;
  heap : gmap addr Device.t
}.

Inductive signal :=
| updatedDevices
| mediaChanged (path : string) (media : bool)
| mountpointChanged (path : string) (mountpoint : string)
| deviceErrorMessage (path : string) (error : string)
| foundNewDevice (path : string).

(** In a trace of the manager: its own helper calls and signals, and
    what a [Device] it runs calls ([Call]) and emits ([DeviceEmit]). *)
Inductive event :=
| Call (r : uDisks2.Request)
| Emit (s : signal)
| DeviceEmit (s : Device.signal).

Definition ofDevice (e : Device.event) : event :=
  match e with
  | Device.Call r => Call r
  | Device.Emit s => DeviceEmit s
  end.

(** The three pass-through slots, lines 166-179. *)
Definition handleDeviceMediaChanged (devicePath : string)
    (mediaPresent : bool) : list event :=
  [Emit (mediaChanged devicePath mediaPresent)].

Definition handleDeviceMountpointChanged (devicePath : string)
    (deviceMountpoint : string) : list event :=
  [Emit (mountpointChanged devicePath deviceMountpoint)].

Definition handleDeviceErrorMessage (devicePath : string)
    (deviceError : string) : list event :=
  [Emit (deviceErrorMessage devicePath deviceError)].

(** The connections [scanDevices] makes for a device it has built
    (lines 134-136): what the manager does when that device emits [s].
    [nameChanged] is connected to nothing. *)
Definition connected (s : Device.signal) : list event :=
  match s with
  | Device.mediaChanged p b => handleDeviceMediaChanged p b
  | Device.mountpointChanged p m => handleDeviceMountpointChanged p m
  | Device.errorMessage p e => handleDeviceErrorMessage p e
  | Device.nameChanged _ _ => []
  end.

Section Methods.
Context {W : Type} {udisks : uDisks2.Service W}.

Definition call {A} (r : uDisks2.Request) (f : W -> A * W)
  : IO W event A :=
  fun w => let '(a, w1) := f w in (a, w1, [Call r]).

Definition emit (s : signal) : IO W event unit :=
  fun w => (tt, w, [Emit s]).

Definition valid (i : QDBusInterface) : IO W event bool :=
  fun w => (uDisks2.isValid i w, w, []).

(** [devices[foundDevicePath] = newDevice] after [new Device(...)]:
    the object gets an address that no live object has. *)
Definition track (foundDevicePath : string) (newDevice : Device.t)
    (s : state) : state :=
  let a := fresh (dom (heap s)) in
  {| self := {| devices := <[foundDevicePath := a]> (devices (self s));
                dbus := dbus (self s) |};
     heap := <[a := newDevice]> (heap s) |}.

(** The loop of [Manager::scanDevices], lines 129-138.  The signals a
    device emits from its constructor reach nobody: the connections
    are made after the constructor has returned. *)
Fixpoint scanLoop (foundDevices : list string) (s : state)
  : IO W event state :=
  match foundDevices with
  | [] => mret s
  | foundDevicePath :: rest =>
      match devices (self s) !! foundDevicePath with
      | Some _ => scanLoop rest s
      | None =>
          newDevice ← relabel ofDevice (Device.new foundDevicePath);
          scanLoop rest (track foundDevicePath newDevice s)
      end
  end.

(** [Manager::scanDevices], lines 126-140. *)
Definition scanDevices (s : state) : IO W event state :=
  foundDevices ← call uDisks2.GetDevices uDisks2.getDevices;
  s ← scanLoop foundDevices s;
  emit updatedDevices;;
  mret s.

(** [delete devices.take(path)]: the entry leaves the map and the
    object it pointed to is destroyed. *)
Definition deleteTake (path : string) (s : state) : state :=
  match devices (self s) !! path with
  | Some a =>
      {| self := {| devices := delete path (devices (self s));
                    dbus := dbus (self s) |};
         heap := delete a (heap s) |}
  | None => s
  end.

(** [Manager::deviceAdded], lines 142-150.  [obj] is [obj.path()].
    The result is [None] when [dbus] is the null pointer, which the
    slot dereferences. *)
Definition deviceAdded (obj : string) (s : state) (w : W)
  : option (state * W * list event) :=
  match dbus (self s) with
  | None => None
  | Some i =>
      Some ((ok ← valid i;
             if negb ok then mret s else
             let path := obj in
             if startsWith path (uDisks2.DBUS_PATH +:+ "/jobs")
             then mret s else
             s ← scanDevices s;
             emit (foundNewDevice path);;
             mret s) w)
  end.

(** [Manager::deviceRemoved], lines 152-164.  The [return] of line 160
    is the branch that ends in [mret s]; every other way through the
    slot past its guards ends in [scanDevices]. *)
Definition deviceRemoved (obj : string) (s : state) (w : W)
  : option (state * W * list event) :=
  match dbus (self s) with
  | None => None
  | Some i =>
      Some ((ok ← valid i;
             if negb ok then mret s else
             let path := obj in
             let deviceExists :=
               bool_decide (is_Some (devices (self s) !! path)) in
             if startsWith path (uDisks2.DBUS_PATH +:+ "/jobs")
             then mret s else
             if deviceExists then
               live ← call uDisks2.GetDevices uDisks2.getDevices;
               if bool_decide (path ∈ live) then mret s
               else scanDevices (deleteTake path s)
             else scanDevices s) w)
  end.

(** [Manager::setupDBus], lines 115-124.  The two subscriptions decide
    which notifications the event loop delivers; they change nothing
    in the manager. *)
Definition setupDBus (s : state) : IO W event state :=
  fun w =>
    if uDisks2.isConnected w then
      let i := match dbus (self s) with
               | None => {| service := uDisks2.DBUS_SERVICE;
                            object := uDisks2.DBUS_PATH;
                            interface := uDisks2.DBUS_OBJMANAGER |}
               | Some i => i
               end in
      scanDevices {| self := {| devices := devices (self s);
                                dbus := Some i |};
                     heap := heap s |} w
    else (s, w, []).

(** [Manager::Manager], lines 105-113. *)
Definition new : IO W event state :=
  setupDBus {| self := {| devices := ∅; dbus := None |}; heap := ∅ |}.

(** [Manager::checkUDisks], lines 181-188. *)
Definition checkUDisks (s : state) (w : W)
  : option (state * W * list event) :=
  if negb (uDisks2.isConnected w) then Some (setupDBus s w)
  else match dbus (self s) with
       | None => None
       | Some i =>
           if negb (uDisks2.isValid i w) then Some (scanDevices s w)
           else Some (s, w, [])
       end.

End Methods.

(** What a trace shows. *)
Definition signals (tr : list event) : list signal :=
  omap (fun e => match e with Emit s => Some s | _ => None end) tr.

Definition deviceSignals (tr : list event) : list Device.signal :=
  omap (fun e => match e with DeviceEmit s => Some s | _ => None end) tr.

Definition requests (tr : list event) : list uDisks2.Request :=
  omap (fun e => match e with Call r => Some r | _ => None end) tr.

(** The paths the registry tracks. *)
Definition tracked (s : state) : gset string := dom (devices (self s)).

End Manager.

(** ** A small simulated UDisks2 service

    One concrete instance of the service, used to run the code above on
    concrete inputs: every block device sits on the same drive, and the
    replies of the three actions are scripted in the world. *)

Module Sim.

Record world := {
  running : bool;             (* the service owns its bus name *)
  paths : list string;        (* the block devices it publishes *)
  mounted : string;           (* where the medium is mounted *)
  label : string;             (* the name of the drive *)
  optical : bool;
  media : bool;
  mountError : string;        (* the reply of a mount request *)
  unmountError : string;      (* the reply of an unmount request *)
  unmountWorks : bool;        (* an accepted unmount really unmounts *)
  ejectError : string         (* the reply of an eject request *)
}.

Definition setMounted (m : string) (w : world) : world :=
  {| running := running w; paths := paths w; mounted := m;
     label := label w; optical := optical w; media := media w;
     mountError := mountError w; unmountError := unmountError w;
     unmountWorks := unmountWorks w; ejectError := ejectError w |}.

Definition setMedia (b : bool) (w : world) : world :=
  {| running := running w; paths := paths w; mounted := mounted w;
     label := label w; optical := optical w; media := b;
     mountError := mountError w; unmountError := unmountError w;
     unmountWorks := unmountWorks w; ejectError := ejectError w |}.

Definition theDrive : string := "/org/freedesktop/UDisks2/drives/drive0".

#[global] Instance service : uDisks2.Service world := {|
  uDisks2.DBUS_SERVICE := "org.freedesktop.UDisks2";
  uDisks2.DBUS_PATH := "/org/freedesktop/UDisks2";
  uDisks2.DBUS_OBJMANAGER := "org.freedesktop.DBus.ObjectManager";
  uDisks2.isConnected := fun _ => true;
  uDisks2.isValid := fun _ w => running w;
  uDisks2.getDevices := fun w => (paths w, w);
  uDisks2.getDrivePath := fun _ w => (theDrive, w);
  uDisks2.getDeviceName := fun _ w => (label w, w);
  uDisks2.isRemovable := fun _ w => (true, w);
  uDisks2.getMountPoint := fun _ w => (mounted w, w);
  uDisks2.getFileSystem := fun _ w => ("iso9660", w);
  uDisks2.isOptical := fun _ w => (optical w, w);
  uDisks2.hasMedia := fun _ w => (media w, w);
  uDisks2.opticalDataTracks := fun _ w => (1%Z, w);
  uDisks2.opticalAudioTracks := fun _ w => (0%Z, w);
  uDisks2.opticalMediaIsBlank := fun _ w => (false, w);
  uDisks2.hasPartition := fun _ w => (false, w);
  uDisks2.mountDevice := fun _ w =>
    (mountError w,
     if isEmpty (mountError w) then setMounted "/media/disc" w else w);
  uDisks2.unmountDevice := fun _ w =>
    (unmountError w,
     if isEmpty (unmountError w) && unmountWorks w
     then setMounted EmptyString w else w);
  uDisks2.ejectDevice := fun _ w =>
    (ejectError w,
     if isEmpty (ejectError w) then setMedia false w else w)
|}.

Definition sr0 : string := "/org/freedesktop/UDisks2/block_devices/sr0".
Definition sdb1 : string := "/org/freedesktop/UDisks2/block_devices/sdb1".
Definition job7 : string := "/org/freedesktop/UDisks2/jobs/7".

(** An optical drive with a mounted disc; every request is accepted. *)
Definition disc : world :=
  {| running := true; paths := [sr0]; mounted := "/media/disc";
     label := "DVD"; optical := true; media := true;
     mountError := EmptyString; unmountError := EmptyString;
     unmountWorks := true;
     ejectError := EmptyString |}.

(** The same, but the drive refuses to open. *)
Definition lockedTray : world :=
  {| running := true; paths := [sr0]; mounted := "/media/disc";
     label := "DVD"; optical := true; media := true;
     mountError := EmptyString; unmountError := EmptyString;
     unmountWorks := true;
     ejectError := "drive is locked" |}.

(** An unmount that is accepted and does nothing. *)
Definition stuck : world :=
  {| running := true; paths := [sr0]; mounted := "/media/disc";
     label := "DVD"; optical := true; media := true;
     mountError := EmptyString; unmountError := EmptyString;
     unmountWorks := false;
     ejectError := EmptyString |}.

(** A USB stick, not mounted. *)
Definition stick : world :=
  {| running := true; paths := [sdb1]; mounted := EmptyString;
     label := "STICK"; optical := false; media := true;
     mountError := EmptyString; unmountError := EmptyString;
     unmountWorks := true;
     ejectError := EmptyString |}.

(** The same stick, mounted. *)
Definition stickMounted : world := setMounted "/media/disc" stick.

(** A mount request that is refused. *)
Definition refused : world :=
  {| running := true; paths := [sdb1]; mounted := EmptyString;
     label := "STICK"; optical := false; media := true;
     mountError := "not authorized"; unmountError := EmptyString;
     unmountWorks := true; ejectError := EmptyString |}.

(** The service has gone away. *)
Definition down : world :=
  {| running := false; paths := [sdb1]; mounted := EmptyString;
     label := "STICK"; optical := false; media := true;
     mountError := EmptyString; unmountError := EmptyString;
     unmountWorks := true;
     ejectError := EmptyString |}.

(** The device object built for [p] in world [w]. *)
Definition deviceIn (p : string) (w : world) : Device.t :=
  (Device.new p w).1.1.

(** The manager as its constructor leaves it in world [w]. *)
Definition managerIn (w : world) : Manager.state :=
  (Manager.new w).1.1.

(** The disc in its drive, mounted; the stick, unmounted and mounted. *)
Definition dvd : Device.t := deviceIn sr0 disc.
Definition usb : Device.t := deviceIn sdb1 stick.
Definition usbMounted : Device.t := deviceIn sdb1 stickMounted.

End Sim.

(** ** What a refresh leaves in a trace *)

(** The queries of one refresh of the device at [p], whose drive
    turned out to be [drv], in program order. *)
Definition queries (p drv : string) : list uDisks2.Request :=
  [ uDisks2.GetDrivePath p; uDisks2.GetDeviceName drv;
    uDisks2.IsRemovable drv; uDisks2.GetMountPoint p;
    uDisks2.GetFileSystem p; uDisks2.IsOptical drv;
    uDisks2.HasMedia drv; uDisks2.OpticalDataTracks drv;
    uDisks2.OpticalAudioTracks drv; uDisks2.OpticalMediaIsBlank drv;
    uDisks2.HasPartition p ].

(** The change signals that separate a device from its refreshed
    self. *)
Definition changes (old new : Device.t) : list Device.signal :=
  (if Bool.eqb (Device.hasMedia old) (Device.hasMedia new) then []
   else [Device.mediaChanged (Device.path new) (Device.hasMedia new)])
  ++ (if String.eqb (Device.mountpoint old) (Device.mountpoint new) then []
      else [Device.mountpointChanged (Device.path new)
              (Device.mountpoint new)])
  ++ (if String.eqb (Device.name old) (Device.name new) then []
      else [Device.nameChanged (Device.path new) (Device.name new)]).

(** ** Reading the model: derived notions *)

(** The error signals of a trace. *)
Definition errors (tr : list Device.event) : list Device.signal :=
  List.filter Device.isError (Device.signals tr).

(** The paths for which a refresh got as far as asking for the drive. *)
Definition refreshed (tr : list Manager.event) : list string :=
  omap (fun r => match r with
                 | uDisks2.GetDrivePath p => Some p
                 | _ => None
                 end) (Manager.requests tr).

(** What every slot of a device respects: the run [r] of a slot on [d]
    keeps the path and the handle of [d], emits signals about [d] only,
    and reports at most one error. *)
Definition slot_ok {W : Type} (d : Device.t)
    (r : Device.t * W * list Device.event) : Prop :=
  Device.path r.1.1 = Device.path d
  /\ Device.dbus r.1.1 = Device.dbus d
  /\ (forall s, s ∈ Device.signals r.2 ->
                Device.signalPath s = Device.path d)
  /\ length (errors r.2) <= 1.

(** [QStringList::join(sep)], the inverse of [split]. *)
Fixpoint join (sep : ascii) (l : list string) : string :=
  match l with
  | [] => EmptyString
  | [part] => part
  | part :: rest => part +:+ String sep (join sep rest)
  end.

(** The registry and the objects agree: every tracked path points to a
    live [Device] of that path, and every live [Device] is the one its
    own path points to.  So no entry dangles, no object is lost, and no
    two paths share an object. *)
Definition registry_ok (s : Manager.state) : Prop :=
  map_Forall (fun p a => Device.path <$> Manager.heap s !! a = Some p)
             (Manager.devices (Manager.self s))
  /\ map_Forall (fun a d => Manager.devices (Manager.self s)
                              !! Device.path d = Some a)
                (Manager.heap s).

(** What reaches the manager when a device that [scanDevices] has wired
    (lines 134-136) runs and leaves the trace [tr]: the connections are
    direct, so each connected slot runs at the [emit]. *)
Definition forward (tr : list Device.event) : list Manager.event :=
  tr ≫= fun e =>
    Manager.ofDevice e ::
    match e with
    | Device.Emit s => Manager.connected s
    | Device.Call _ => []
    end.

(** A bus with no service behind it: the world is whether the bus is
    connected, every handle is as valid as the bus is connected, and
    every query comes back empty. *)
Module Bare.

Definition service : uDisks2.Service bool := {|
  uDisks2.DBUS_SERVICE := "org.freedesktop.UDisks2";
  uDisks2.DBUS_PATH := "/org/freedesktop/UDisks2";
  uDisks2.DBUS_OBJMANAGER := "org.freedesktop.DBus.ObjectManager";
  uDisks2.isConnected := fun c => c;
  uDisks2.isValid := fun _ c => c;
  uDisks2.getDevices := fun c => ([], c);
  uDisks2.getDrivePath := fun _ c => (EmptyString, c);
  uDisks2.getDeviceName := fun _ c => (EmptyString, c);
  uDisks2.isRemovable := fun _ c => (false, c);
  uDisks2.getMountPoint := fun _ c => (EmptyString, c);
  uDisks2.getFileSystem := fun _ c => (EmptyString, c);
  uDisks2.isOptical := fun _ c => (false, c);
  uDisks2.hasMedia := fun _ c => (false, c);
  uDisks2.opticalDataTracks := fun _ c => (0%Z, c);
  uDisks2.opticalAudioTracks := fun _ c => (0%Z, c);
  uDisks2.opticalMediaIsBlank := fun _ c => (false, c);
  uDisks2.hasPartition := fun _ c => (false, c);
  uDisks2.mountDevice := fun _ c => ("no service", c);
  uDisks2.unmountDevice := fun _ c => ("no service", c);
  uDisks2.ejectDevice := fun _ c => ("no service", c)
|}.

(** The manager built while the bus was not connected. *)
Definition unstarted : Manager.state :=
  (Manager.new (udisks := service) false).1.1.

End Bare.

(** A manager that tracks both the stick and the disc: built with the
    stick plugged in, then run through an enumeration that lists the
    disc. *)
Definition stickAndDisc : Manager.state :=
  (Manager.scanDevices (Sim.managerIn Sim.stick) Sim.disc).1.1.

(** * Properties *)

(** Unfold the bookkeeping of [IO]. *)
Ltac io_unfold :=
  unfold mbind, mret, IO_bind, IO_ret, relabel,
    Device.call, Device.emit, Device.valid, Device.when,
    Manager.call, Manager.emit, Manager.valid in *.

(** Name the answer of the next helper call the goal runs into. *)
Ltac io_step :=
  match goal with
  | |- context [match ?c with pair _ _ => _ end] =>
      lazymatch c with
      | context [match _ with pair _ _ => _ end] => fail
      | context [if _ then _ else _] => fail
      | pair _ _ => fail
      | _ => let E := fresh "E" in destruct c as [? ?] eqn:E
      end
  end; cbn beta iota.

Ltac io_run := io_unfold; repeat io_step.

(** ** The refresh *)

Section Refresh.
Context {W : Type} {udisks : uDisks2.Service W}.

Lemma updateDeviceProperties_invalid (d : Device.t) (w : W) :
  uDisks2.isValid (Device.dbus d) w = false ->
  Device.updateDeviceProperties d w = (d, w, []).
Proof.
  intros H. unfold Device.updateDeviceProperties. io_unfold.
  rewrite H. reflexivity.
Qed.

Lemma updateDeviceProperties_valid (d : Device.t) (w : W) :
  uDisks2.isValid (Device.dbus d) w = true ->
  exists d' w',
    Device.updateDeviceProperties d w
    = (d', w', (Device.Call <$> queries (Device.path d) (Device.drive d'))
               ++ (Device.Emit <$> changes d d'))
    /\ Device.path d' = Device.path d
    /\ Device.dbus d' = Device.dbus d.
Proof.
  intros H.
  destruct (Device.updateDeviceProperties d w) as [[d' w'] tr] eqn:E.
  exists d', w'. revert E.
  unfold Device.updateDeviceProperties. io_unfold.
  rewrite H. cbn [negb]. io_run. cbn.
  destruct (Bool.eqb (Device.hasMedia d) _) eqn:C1;
    destruct (String.eqb (Device.mountpoint d) _) eqn:C2;
    destruct (String.eqb (Device.name d) _) eqn:C3;
    cbn; intros [= <- <- <-]; unfold changes; cbn;
    rewrite C1, C2, C3; auto.
Qed.
End Refresh.

(** ** Reading traces *)

Section Traces.

Lemma signals_app (a b : list Device.event) :
  Device.signals (a ++ b) = Device.signals a ++ Device.signals b.
Proof. apply omap_app. Qed.

Lemma requests_app (a b : list Device.event) :
  Device.requests (a ++ b) = Device.requests a ++ Device.requests b.
Proof. apply omap_app. Qed.

Lemma signals_calls (l : list uDisks2.Request) :
  Device.signals (Device.Call <$> l) = [].
Proof. induction l as [|r l IH]; [reflexivity | exact IH]. Qed.

Lemma signals_emits (l : list Device.signal) :
  Device.signals (Device.Emit <$> l) = l.
Proof.
  induction l as [|s l IH]; [reflexivity|].
  cbn. f_equal. exact IH.
Qed.

Lemma requests_calls (l : list uDisks2.Request) :
  Device.requests (Device.Call <$> l) = l.
Proof.
  induction l as [|r l IH]; [reflexivity|].
  cbn. f_equal. exact IH.
Qed.

Lemma requests_emits (l : list Device.signal) :
  Device.requests (Device.Emit <$> l) = [].
Proof. induction l as [|s l IH]; [reflexivity | exact IH]. Qed.

(** A refresh reports no error, and speaks of its own device only. *)
Lemma changes_no_error (old new : Device.t) (s : Device.signal) :
  s ∈ changes old new -> Device.isError s = false.
Proof.
  unfold changes.
  destruct (Bool.eqb _ _), (String.eqb (Device.mountpoint old) _),
    (String.eqb (Device.name old) _); cbn;
    rewrite ?elem_of_cons, elem_of_nil; intuition (subst; reflexivity).
Qed.

Lemma changes_path (old new : Device.t) (s : Device.signal) :
  s ∈ changes old new -> Device.signalPath s = Device.path new.
Proof.
  unfold changes.
  destruct (Bool.eqb _ _), (String.eqb (Device.mountpoint old) _),
    (String.eqb (Device.name old) _); cbn;
    rewrite ?elem_of_cons, elem_of_nil; intuition (subst; reflexivity).
Qed.

Lemma queries_no_eject (p drv : string) (r : uDisks2.Request) :
  r ∈ queries p drv -> Device.isEject r = false.
Proof.
  unfold queries. rewrite !elem_of_cons, elem_of_nil.
  intuition (subst; reflexivity).
Qed.

Lemma eqb_false_neq (a b : bool) : Bool.eqb a b = false <-> a <> b.
Proof. destruct a, b; cbn; split; congruence. Qed.

Lemma isEmpty_true (s : string) : isEmpty s = true <-> s = EmptyString.
Proof. destruct s; cbn; split; congruence. Qed.

Lemma isEmpty_false (s : string) : isEmpty s = false <-> s <> EmptyString.
Proof. destruct s; cbn; split; congruence. Qed.

(** Decide the three comparisons of [changes]. *)
Ltac compare_attributes old :=
  unfold changes;
  destruct (Bool.eqb (Device.hasMedia old) _) eqn:C1;
  destruct (String.eqb (Device.mountpoint old) _) eqn:C2;
  destruct (String.eqb (Device.name old) _) eqn:C3;
  first [apply Bool.eqb_prop in C1 | apply eqb_false_neq in C1];
  first [apply String.eqb_eq in C2 | apply String.eqb_neq in C2];
  first [apply String.eqb_eq in C3 | apply String.eqb_neq in C3];
  cbn [app].

Lemma changes_media (old new : Device.t) (p : string) (b : bool) :
  Device.mediaChanged p b ∈ changes old new <->
  p = Device.path new /\ b = Device.hasMedia new
  /\ Device.hasMedia old <> Device.hasMedia new.
Proof.
  compare_attributes old;
    rewrite ?elem_of_cons, elem_of_nil; intuition congruence.
Qed.

Lemma changes_mountpoint (old new : Device.t) (p m : string) :
  Device.mountpointChanged p m ∈ changes old new <->
  p = Device.path new /\ m = Device.mountpoint new
  /\ Device.mountpoint old <> Device.mountpoint new.
Proof.
  compare_attributes old;
    rewrite ?elem_of_cons, elem_of_nil; intuition congruence.
Qed.

Lemma changes_name (old new : Device.t) (p n : string) :
  Device.nameChanged p n ∈ changes old new <->
  p = Device.path new /\ n = Device.name new
  /\ Device.name old <> Device.name new.
Proof.
  compare_attributes old;
    rewrite ?elem_of_cons, elem_of_nil; intuition congruence.
Qed.

Lemma changes_NoDup (old new : Device.t) : NoDup (changes old new).
Proof.
  compare_attributes old;
    repeat (apply NoDup_cons; split;
            [rewrite ?elem_of_cons, elem_of_nil; intuition congruence|]);
    apply NoDup_nil_2.
Qed.

End Traces.

(** ** Device *)

Section DeviceProperties.
Context {W : Type} {udisks : uDisks2.Service W}.

(** A refresh behind a valid handle, query by query: the device it
    returns holds the answers of the adapter, in the world the last query
    left. *)
Lemma updateDeviceProperties_fetched (d : Device.t) (w : W) :
  uDisks2.isValid (Device.dbus d) w = true ->
  let '(drive', w1) := uDisks2.getDrivePath (Device.path d) w in
  let '(name', w2) := uDisks2.getDeviceName drive' w1 in
  let '(isRemovable', w3) := uDisks2.isRemovable drive' w2 in
  let '(mountpoint', w4) := uDisks2.getMountPoint (Device.path d) w3 in
  let '(filesystem', w5) := uDisks2.getFileSystem (Device.path d) w4 in
  let '(isOptical', w6) := uDisks2.isOptical drive' w5 in
  let '(hasMedia', w7) := uDisks2.hasMedia drive' w6 in
  let '(dataTracks', w8) := uDisks2.opticalDataTracks drive' w7 in
  let '(audioTracks', w9) := uDisks2.opticalAudioTracks drive' w8 in
  let '(isBlankDisc', w10) := uDisks2.opticalMediaIsBlank drive' w9 in
  let '(hasPartition', w11) := uDisks2.hasPartition (Device.path d) w10 in
  let d' := {| Device.name := name';
               Device.path := Device.path d;
               Device.dev := takeLast (split "/" (Device.path d));
               Device.drive := drive';
               Device.mountpoint := mountpoint';
               Device.filesystem := filesystem';
               Device.isOptical := isOptical';
               Device.isRemovable := isRemovable';
               Device.hasMedia := hasMedia';
               Device.opticalDataTracks := dataTracks';
               Device.opticalAudioTracks := audioTracks';
               Device.isBlankDisc := isBlankDisc';
               Device.hasPartition := hasPartition';
               Device.dbus := Device.dbus d |} in
  Device.updateDeviceProperties d w
  = (d', w11,
     (Device.Call <$> queries (Device.path d) drive')
     ++ (Device.Emit <$> changes d d')).
Proof.
  intros H. unfold Device.updateDeviceProperties. io_unfold.
  rewrite H. cbn [negb]. io_run. cbv zeta. unfold changes. cbn.
  destruct (Bool.eqb (Device.hasMedia d) _);
    destruct (String.eqb (Device.mountpoint d) _);
    destruct (String.eqb (Device.name d) _); reflexivity.
Qed.

(** C6.  With a valid bus interface, [updateDeviceProperties] asks the
    adapter for every attribute again, one query each, in program order,
    and the device it returns holds the answers (the path and the handle
    are kept, [dev] is the last segment of the path).  It emits
    [mediaChanged], [mountpointChanged] and [nameChanged], each with the
    device path and the value just fetched, exactly for those of
    media-present, mount point and name whose fetched value differs from
    the previous one; it emits each at most once and emits nothing else,
    whatever the answers for the other attributes. *)
Theorem updateDeviceProperties_emits_changes (d : Device.t) (w : W) :
  uDisks2.isValid (Device.dbus d) w = true ->
  let '(drive', w1) := uDisks2.getDrivePath (Device.path d) w in
  let '(name', w2) := uDisks2.getDeviceName drive' w1 in
  let '(isRemovable', w3) := uDisks2.isRemovable drive' w2 in
  let '(mountpoint', w4) := uDisks2.getMountPoint (Device.path d) w3 in
  let '(filesystem', w5) := uDisks2.getFileSystem (Device.path d) w4 in
  let '(isOptical', w6) := uDisks2.isOptical drive' w5 in
  let '(hasMedia', w7) := uDisks2.hasMedia drive' w6 in
  let '(dataTracks', w8) := uDisks2.opticalDataTracks drive' w7 in
  let '(audioTracks', w9) := uDisks2.opticalAudioTracks drive' w8 in
  let '(isBlankDisc', w10) := uDisks2.opticalMediaIsBlank drive' w9 in
  let '(hasPartition', w11) := uDisks2.hasPartition (Device.path d) w10 in
  let '(d', w', tr) := Device.updateDeviceProperties d w in
  d' = {| Device.name := name';
          Device.path := Device.path d;
          Device.dev := takeLast (split "/" (Device.path d));
          Device.drive := drive';
          Device.mountpoint := mountpoint';
          Device.filesystem := filesystem';
          Device.isOptical := isOptical';
          Device.isRemovable := isRemovable';
          Device.hasMedia := hasMedia';
          Device.opticalDataTracks := dataTracks';
          Device.opticalAudioTracks := audioTracks';
          Device.isBlankDisc := isBlankDisc';
          Device.hasPartition := hasPartition';
          Device.dbus := Device.dbus d |}
  /\ w' = w11
  /\ Device.requests tr = queries (Device.path d) drive'
  /\ (forall p b,
        Device.mediaChanged p b ∈ Device.signals tr <->
        p = Device.path d /\ b = hasMedia'
        /\ Device.hasMedia d <> hasMedia')
  /\ (forall p m,
        Device.mountpointChanged p m ∈ Device.signals tr <->
        p = Device.path d /\ m = mountpoint'
        /\ Device.mountpoint d <> mountpoint')
  /\ (forall p n,
        Device.nameChanged p n ∈ Device.signals tr <->
        p = Device.path d /\ n = name'
        /\ Device.name d <> name')
  /\ (forall p e, Device.errorMessage p e ∉ Device.signals tr)
  /\ NoDup (Device.signals tr).
Proof.
  intros H. generalize (updateDeviceProperties_fetched d w H).
  destruct (uDisks2.getDrivePath (Device.path d) w) as [drive' w1].
  destruct (uDisks2.getDeviceName drive' w1) as [name' w2].
  destruct (uDisks2.isRemovable drive' w2) as [isRemovable' w3].
  destruct (uDisks2.getMountPoint (Device.path d) w3) as [mountpoint' w4].
  destruct (uDisks2.getFileSystem (Device.path d) w4) as [filesystem' w5].
  destruct (uDisks2.isOptical drive' w5) as [isOptical' w6].
  destruct (uDisks2.hasMedia drive' w6) as [hasMedia' w7].
  destruct (uDisks2.opticalDataTracks drive' w7) as [dataTracks' w8].
  destruct (uDisks2.opticalAudioTracks drive' w8) as [audioTracks' w9].
  destruct (uDisks2.opticalMediaIsBlank drive' w9) as [isBlankDisc' w10].
  destruct (uDisks2.hasPartition (Device.path d) w10)
    as [hasPartition' w11].
  cbv zeta. intros ->.
  rewrite requests_app, requests_calls, requests_emits, app_nil_r.
  rewrite signals_app, signals_calls, signals_emits. cbn [app].
  split; [reflexivity|]. split; [reflexivity|]. split; [reflexivity|].
  split; [intros p b; apply changes_media|].
  split; [intros p m; apply changes_mountpoint|].
  split; [intros p n; apply changes_name|].
  split; [|apply changes_NoDup].
  intros p e Hin. apply changes_no_error in Hin. discriminate.
Qed.

(** Whatever the state of the handle, a refresh keeps the path and the
    handle of the device, reports no error, speaks of this device only,
    asks for no ejection, and asks for the drive of this path only. *)
Lemma updateDeviceProperties_trace (d : Device.t) (w : W) :
  let '(d', _, tr) := Device.updateDeviceProperties d w in
  Device.path d' = Device.path d
  /\ Device.dbus d' = Device.dbus d
  /\ (forall s, s ∈ Device.signals tr ->
        Device.isError s = false /\ Device.signalPath s = Device.path d)
  /\ (forall r, r ∈ Device.requests tr -> Device.isEject r = false)
  /\ (forall q, uDisks2.GetDrivePath q ∈ Device.requests tr ->
        q = Device.path d).
Proof.
  destruct (uDisks2.isValid (Device.dbus d) w) eqn:H.
  - destruct (updateDeviceProperties_valid d w H)
      as (d' & w' & -> & Hp & Hd).
    rewrite requests_app, requests_calls, requests_emits, app_nil_r.
    rewrite signals_app, signals_calls, signals_emits. cbn [app].
    repeat split; auto.
    + eapply changes_no_error; eauto.
    + rewrite <- Hp. eapply changes_path; eauto.
    + intros r. apply queries_no_eject.
    + intros q. unfold queries. rewrite !elem_of_cons, elem_of_nil.
      intuition congruence.
  - rewrite (updateDeviceProperties_invalid d w H). cbn.
    split; [reflexivity|]. split; [reflexivity|].
    split; [|split]; intros ? Hin; apply elem_of_nil in Hin;
      contradiction.
Qed.

Lemma updateDeviceProperties_no_error (d : Device.t) (w : W)
    (p e : string) :
  Device.errorMessage p e ∉ Device.signals
                              (Device.updateDeviceProperties d w).2.
Proof.
  pose proof (updateDeviceProperties_trace d w) as H.
  destruct (Device.updateDeviceProperties d w) as [[d' w'] tr].
  destruct H as (_ & _ & H & _). intros Hin.
  apply H in Hin as [Hin _]. discriminate.
Qed.

(** C7.  [mount] does nothing (no helper call, no signal, device and
    world unchanged) when the handle is invalid or the mount point is
    not empty.  Otherwise it asks the adapter to mount; with a non-empty
    reply it emits [errorMessage (path, reply)] and stops there, with an
    empty reply it goes on with a refresh. *)
Theorem mount_effect (d : Device.t) (w : W) :
  (uDisks2.isValid (Device.dbus d) w = false
   \/ Device.mountpoint d <> EmptyString ->
   Device.mount d w = (d, w, []))
  /\ (uDisks2.isValid (Device.dbus d) w = true ->
      Device.mountpoint d = EmptyString ->
      let '(reply, w1) := uDisks2.mountDevice (Device.path d) w in
      (reply <> EmptyString ->
       Device.mount d w
       = (d, w1, [Device.Call (uDisks2.MountDevice (Device.path d));
                  Device.Emit (Device.errorMessage (Device.path d) reply)]))
      /\ (reply = EmptyString ->
          Device.mount d w
          = let '(d', w2, tr) := Device.updateDeviceProperties d w1 in
            (d', w2,
             Device.Call (uDisks2.MountDevice (Device.path d)) :: tr))).
Proof.
  unfold Device.mount. io_unfold. split.
  - intros [H|H].
    + rewrite H. reflexivity.
    + apply isEmpty_false in H. rewrite H.
      destruct (uDisks2.isValid _ _); reflexivity.
  - intros H Hm. rewrite H, Hm. cbn.
    destruct (uDisks2.mountDevice (Device.path d) w) as [reply w1].
    split; intros Hr.
    + apply isEmpty_false in Hr. rewrite Hr. reflexivity.
    + subst reply. cbn.
      destruct (Device.updateDeviceProperties d w1) as [[d' w2] tr].
      reflexivity.
Qed.


(** [eject] behind a valid handle, step by step; the guarded fallback
    message of line 61 has dropped out. *)
Lemma eject_valid (d : Device.t) (w : W) :
  uDisks2.isValid (Device.dbus d) w = true ->
  Device.eject d w
  = let '(reply, w1) := uDisks2.ejectDevice (Device.drive d) w in
    let '(d1, w2, tr1) := Device.updateDeviceProperties d w1 in
    (d1, w2,
     Device.Call (uDisks2.EjectDevice (Device.drive d))
     :: tr1 ++ match reply with
               | EmptyString => []
               | _ => [Device.Emit (Device.errorMessage (Device.path d1)
                                      reply)]
               end).
Proof.
  intros H. unfold Device.eject. io_unfold. rewrite H. cbn.
  destruct (uDisks2.ejectDevice (Device.drive d) w) as [reply w1].
  destruct (Device.updateDeviceProperties d w1) as [[d1 w2] tr1].
  destruct reply; cbn; rewrite ?app_nil_r; reflexivity.
Qed.

(** C9.  With a valid handle, [eject] asks the adapter to eject the
    drive and refreshes; it emits an [errorMessage] if and only if the
    adapter's reply is not empty, and the message is then the reply
    itself, for this device's path: the "Failed to eject" text is never
    built, and an empty reply gives no error whatever the refresh
    found. *)
Theorem eject_reports_reply (d : Device.t) (w : W) :
  uDisks2.isValid (Device.dbus d) w = true ->
  let '(reply, w1) := uDisks2.ejectDevice (Device.drive d) w in
  let '(d1, w2, tr1) := Device.updateDeviceProperties d w1 in
  let '(d', w', tr) := Device.eject d w in
  d' = d1 /\ w' = w2
  /\ Device.requests tr
     = uDisks2.EjectDevice (Device.drive d) :: Device.requests tr1
  /\ (forall p e,
        Device.errorMessage p e ∈ Device.signals tr <->
        reply <> EmptyString /\ p = Device.path d /\ e = reply)
  /\ (reply = EmptyString -> Device.signals tr = Device.signals tr1)
  /\ (reply <> EmptyString ->
      Device.signals tr
      = Device.signals tr1 ++ [Device.errorMessage (Device.path d) reply]).
Proof.
  intros H. rewrite (eject_valid d w H).
  destruct (uDisks2.ejectDevice (Device.drive d) w) as [reply w1].
  pose proof (updateDeviceProperties_trace d w1) as Ht.
  pose proof (updateDeviceProperties_no_error d w1) as Hn.
  destruct (Device.updateDeviceProperties d w1) as [[d1 w2] tr1].
  destruct Ht as (Hp & _). cbn [snd] in Hn.
  split; [reflexivity|]. split; [reflexivity|]. rewrite Hp.
  destruct reply as [|c reply].
  - rewrite app_nil_r.
    split; [reflexivity|]. split; [|split; [reflexivity|congruence]].
    intros p e. split.
    + intros Hin. exfalso. exact (Hn _ _ Hin).
    + intros (Hne & _). congruence.
  - change (Device.Call ?r :: ?a ++ ?b) with ([Device.Call r] ++ a ++ b).
    rewrite !requests_app, !signals_app. cbn. rewrite app_nil_r.
    split; [reflexivity|]. split; [|split; [congruence|reflexivity]].
    intros p e. split.
    + intros Hin. apply elem_of_app in Hin as [Hin|Hin].
      * exfalso. exact (Hn _ _ Hin).
      * apply list_elem_of_singleton in Hin.
        injection Hin as -> ->. repeat split. discriminate.
    + intros (_ & -> & ->). apply elem_of_app. right.
      apply list_elem_of_singleton. reflexivity.
Qed.


(** [unmount] past its guard, step by step. *)
Lemma unmount_valid (d : Device.t) (w : W) :
  uDisks2.isValid (Device.dbus d) w = true ->
  Device.mountpoint d <> EmptyString ->
  Device.unmount d w
  = let '(reply, w1) := uDisks2.unmountDevice (Device.path d) w in
    let '(d1, w2, tr1) := Device.updateDeviceProperties d w1 in
    let asked := Device.Call (uDisks2.UnmountDevice (Device.path d)) in
    if negb (isEmpty reply) || negb (isEmpty (Device.mountpoint d1)) then
      (d1, w2,
       asked :: tr1 ++
         [Device.Emit
            (Device.errorMessage (Device.path d1)
               (if isEmpty reply
                then "Failed to umount " +:+ Device.name d1
                else reply))])
    else if Device.isOptical d1 then
      let '(d2, w3, tr2) := Device.eject d1 w2 in
      (d2, w3, asked :: tr1 ++ tr2)
    else (d1, w2, asked :: tr1).
Proof.
  intros H Hm. apply isEmpty_false in Hm.
  unfold Device.unmount. io_unfold. rewrite H, Hm. cbn.
  destruct (uDisks2.unmountDevice (Device.path d) w) as [reply w1].
  destruct (Device.updateDeviceProperties d w1) as [[d1 w2] tr1].
  destruct (negb (isEmpty reply) || negb (isEmpty (Device.mountpoint d1))).
  - reflexivity.
  - destruct (Device.isOptical d1).
    + destruct (Device.eject d1 w2) as [[d2 w3] tr2]. reflexivity.
    + rewrite app_nil_r. reflexivity.
Qed.

Lemma unmount_failed_iff (reply mp : string) :
  negb (isEmpty reply) || negb (isEmpty mp) = true <->
  reply <> EmptyString \/ mp <> EmptyString.
Proof.
  destruct reply, mp; cbn; split; intros H; auto;
    try discriminate; try (destruct H; congruence);
    (left; discriminate) || (right; discriminate).
Qed.

(** C3, as the code has it.  Past its guard (valid handle, mount point
    not empty), [unmount] asks the adapter to unmount and always runs a
    refresh next.  It then emits an [errorMessage] of its own, for this
    device's path, if and only if the reply is not empty or the
    refreshed mount point is still not empty; the message is the reply
    when there is one and "Failed to umount <refreshed name>" otherwise.
    When neither holds, any error in the trace is one of the [eject]
    that follows on an optical device; so on a device that is not
    optical an error is emitted exactly when one of the two conditions
    holds. *)
Theorem unmount_error_policy (d : Device.t) (w : W) :
  uDisks2.isValid (Device.dbus d) w = true ->
  Device.mountpoint d <> EmptyString ->
  let '(reply, w1) := uDisks2.unmountDevice (Device.path d) w in
  let '(d1, w2, tr1) := Device.updateDeviceProperties d w1 in
  let '(d', w', tr) := Device.unmount d w in
  let asked := Device.Call (uDisks2.UnmountDevice (Device.path d)) in
  (exists rest, tr = asked :: tr1 ++ rest)
  /\ (reply <> EmptyString \/ Device.mountpoint d1 <> EmptyString ->
      d' = d1 /\ w' = w2
      /\ exists msg,
          tr = asked :: tr1
                 ++ [Device.Emit (Device.errorMessage (Device.path d) msg)]
          /\ (reply <> EmptyString -> msg = reply)
          /\ (reply = EmptyString ->
              msg = "Failed to umount " +:+ Device.name d1))
  /\ (reply = EmptyString -> Device.mountpoint d1 = EmptyString ->
      forall p e,
        Device.errorMessage p e ∈ Device.signals tr ->
        Device.isOptical d1 = true
        /\ Device.errorMessage p e
             ∈ Device.signals (Device.eject d1 w2).2)
  /\ (Device.isOptical d1 = false ->
      (exists p e, Device.errorMessage p e ∈ Device.signals tr) <->
      reply <> EmptyString \/ Device.mountpoint d1 <> EmptyString).
Proof.
  intros H Hm. rewrite (unmount_valid d w H Hm).
  destruct (uDisks2.unmountDevice (Device.path d) w) as [reply w1].
  pose proof (updateDeviceProperties_trace d w1) as Ht.
  pose proof (updateDeviceProperties_no_error d w1) as Hn.
  destruct (Device.updateDeviceProperties d w1) as [[d1 w2] tr1].
  destruct Ht as (Hp & _). cbn [snd] in Hn. cbv zeta. rewrite Hp.
  pose proof (unmount_failed_iff reply (Device.mountpoint d1)) as Hf.
  destruct (negb (isEmpty reply) || negb (isEmpty (Device.mountpoint d1))).
  - (* the unmount failed *)
    assert (Hc : reply <> EmptyString \/ Device.mountpoint d1 <> EmptyString)
      by (apply Hf; reflexivity).
    split; [eexists; reflexivity|].
    split; [|split].
    + intros _. split; [reflexivity|]. split; [reflexivity|].
      eexists. split; [reflexivity|]. split; intros Hr.
      * apply isEmpty_false in Hr. rewrite Hr. reflexivity.
      * subst reply. reflexivity.
    + intros -> Hm1. destruct Hc; congruence.
    + intros _. split; [intros _; exact Hc|]. intros _.
      eexists _, _.
      change (?a :: ?b ++ ?c) with ([a] ++ b ++ c).
      rewrite !signals_app. cbn. rewrite elem_of_app. right.
      apply list_elem_of_singleton. reflexivity.
  - (* the unmount went through *)
    assert (Hc : ~ (reply <> EmptyString
                    \/ Device.mountpoint d1 <> EmptyString))
      by (intros Hc; apply Hf in Hc; discriminate).
    destruct (Device.isOptical d1) eqn:Ho.
    + destruct (Device.eject d1 w2) as [[d2 w3] tr2] eqn:Ee.
      split; [eexists; reflexivity|].
      split; [intros Hc'; contradiction|].
      split; [|discriminate].
      intros _ _ p e.
      change (?a :: ?b ++ ?c) with ([a] ++ b ++ c).
      rewrite !signals_app. cbn. rewrite elem_of_app.
      intros [Hin|Hin]; [exfalso; exact (Hn _ _ Hin)|].
      split; [reflexivity | exact Hin].
    + split; [exists []; rewrite app_nil_r; reflexivity|].
      split; [intros Hc'; contradiction|].
      split.
      * intros _ _ p e Hin. exfalso. exact (Hn _ _ Hin).
      * intros _. split; [|intros Hc'; contradiction].
        intros (p & e & Hin). exfalso. exact (Hn _ _ Hin).
Qed.

(** C4.  When [unmount] goes through (empty reply, and the refreshed
    mount point is empty), it runs [eject] on the refreshed device if
    and only if that device is optical: on an optical device the rest of
    its run is the run of [eject], which asks the adapter to eject the
    drive when the handle is still valid; on any other device nothing
    follows the refresh and no ejection is asked for. *)
Theorem unmount_ejects_optical (d : Device.t) (w : W) :
  uDisks2.isValid (Device.dbus d) w = true ->
  Device.mountpoint d <> EmptyString ->
  let '(reply, w1) := uDisks2.unmountDevice (Device.path d) w in
  let '(d1, w2, tr1) := Device.updateDeviceProperties d w1 in
  let asked := Device.Call (uDisks2.UnmountDevice (Device.path d)) in
  reply = EmptyString ->
  Device.mountpoint d1 = EmptyString ->
  (Device.isOptical d1 = true ->
   Device.unmount d w
   = let '(d2, w3, tr2) := Device.eject d1 w2 in
     (d2, w3, asked :: tr1 ++ tr2))
  /\ (Device.isOptical d1 = true ->
      uDisks2.isValid (Device.dbus d1) w2 = true ->
      uDisks2.EjectDevice (Device.drive d1)
        ∈ Device.requests (Device.unmount d w).2)
  /\ (Device.isOptical d1 = false ->
      Device.unmount d w = (d1, w2, asked :: tr1)
      /\ forall r, r ∈ Device.requests (Device.unmount d w).2 ->
                   Device.isEject r = false).
Proof.
  intros H Hm. rewrite (unmount_valid d w H Hm).
  destruct (uDisks2.unmountDevice (Device.path d) w) as [reply w1].
  pose proof (updateDeviceProperties_trace d w1) as Ht.
  destruct (Device.updateDeviceProperties d w1) as [[d1 w2] tr1].
  destruct Ht as (_ & _ & _ & Hr & _).
  cbv zeta. intros -> ->. cbn [isEmpty negb orb].
  split; [|split].
  - intros ->. reflexivity.
  - intros -> Hv. rewrite (eject_valid d1 w2 Hv).
    destruct (uDisks2.ejectDevice (Device.drive d1) w2) as [reply w3].
    destruct (Device.updateDeviceProperties d1 w3) as [[d2 w4] tr2].
    cbn [snd].
    change (?a :: ?b ++ ?c :: ?e) with ([a] ++ b ++ [c] ++ e).
    rewrite !requests_app. cbn.
    rewrite elem_of_cons, elem_of_app, elem_of_cons. auto.
  - intros ->. split; [reflexivity|]. cbn [snd].
    intros r. cbn. rewrite elem_of_cons. intros [->|Hin]; [reflexivity|].
    apply Hr. exact Hin.
Qed.

End DeviceProperties.

(** ** Manager *)

Section ManagerTraces.

Lemma msignals_app (a b : list Manager.event) :
  Manager.signals (a ++ b) = Manager.signals a ++ Manager.signals b.
Proof. apply omap_app. Qed.

Lemma mrequests_app (a b : list Manager.event) :
  Manager.requests (a ++ b) = Manager.requests a ++ Manager.requests b.
Proof. apply omap_app. Qed.

Lemma deviceSignals_app (a b : list Manager.event) :
  Manager.deviceSignals (a ++ b)
  = Manager.deviceSignals a ++ Manager.deviceSignals b.
Proof. apply omap_app. Qed.

Lemma msignals_ofDevice (tr : list Device.event) :
  Manager.signals (Manager.ofDevice <$> tr) = [].
Proof. induction tr as [|[r|s] tr IH]; [reflexivity | exact IH ..]. Qed.

Lemma mrequests_ofDevice (tr : list Device.event) :
  Manager.requests (Manager.ofDevice <$> tr) = Device.requests tr.
Proof.
  induction tr as [|[r|s] tr IH]; [reflexivity | | exact IH].
  cbn. f_equal. exact IH.
Qed.

Lemma deviceSignals_ofDevice (tr : list Device.event) :
  Manager.deviceSignals (Manager.ofDevice <$> tr) = Device.signals tr.
Proof.
  induction tr as [|[r|s] tr IH]; [reflexivity | exact IH |].
  cbn. f_equal. exact IH.
Qed.

End ManagerTraces.

Section ManagerProperties.
Context {W : Type} {udisks : uDisks2.Service W}.

(** The constructor of a device speaks of the new device only. *)
Lemma new_trace (block : string) (w : W) :
  let '(d, _, tr) := Device.new block w in
  Device.path d = block
  /\ (forall s, s ∈ Device.signals tr -> Device.signalPath s = block)
  /\ (forall q, uDisks2.GetDrivePath q ∈ Device.requests tr -> q = block).
Proof.
  unfold Device.new.
  match goal with
  | |- context [Device.updateDeviceProperties ?d0 w] =>
      pose proof (updateDeviceProperties_trace d0 w) as H;
      destruct (Device.updateDeviceProperties d0 w) as [[d w'] tr]
  end.
  cbn in H. destruct H as (Hp & _ & Hs & _ & Hq).
  split; [exact Hp|]. split; [|exact Hq].
  intros s Hin. apply Hs in Hin as [_ Hin]. exact Hin.
Qed.

Lemma tracked_track (p : string) (d : Device.t) (s : Manager.state) :
  Manager.tracked (Manager.track p d s) = {[p]} ∪ Manager.tracked s.
Proof. unfold Manager.tracked, Manager.track. cbn. apply dom_insert_L. Qed.

(** Tracking a new path disturbs no tracked device. *)
Lemma track_preserves (p : string) (d : Device.t) (s : Manager.state)
    (q : string) (a : Manager.addr) (dq : Device.t) :
  Manager.devices (Manager.self s) !! p = None ->
  Manager.devices (Manager.self s) !! q = Some a ->
  Manager.heap s !! a = Some dq ->
  Manager.devices (Manager.self (Manager.track p d s)) !! q = Some a
  /\ Manager.heap (Manager.track p d s) !! a = Some dq.
Proof.
  intros Hp Hq Ha. unfold Manager.track. cbn. split.
  - rewrite lookup_insert_ne; [exact Hq|]. congruence.
  - rewrite lookup_insert_ne; [exact Ha|].
    intros Heq.
    pose proof (is_fresh (dom (Manager.heap s))) as Hf.
    rewrite Heq in Hf. apply Hf, elem_of_dom. eauto.
Qed.

(** What the loop of [scanDevices] does to the registry and what it
    leaves in the trace. *)
Lemma scanLoop_spec (l : list string) :
  forall (s : Manager.state) (w : W),
    let '(s', _, tr) := Manager.scanLoop l s w in
    Manager.tracked s' = Manager.tracked s ∪ list_to_set l
    /\ Manager.dbus (Manager.self s') = Manager.dbus (Manager.self s)
    /\ (forall p a d,
          Manager.devices (Manager.self s) !! p = Some a ->
          Manager.heap s !! a = Some d ->
          Manager.devices (Manager.self s') !! p = Some a
          /\ Manager.heap s' !! a = Some d)
    /\ Manager.signals tr = []
    /\ (forall sg, sg ∈ Manager.deviceSignals tr ->
          Device.signalPath sg ∉ Manager.tracked s)
    /\ (forall q, uDisks2.GetDrivePath q ∈ Manager.requests tr ->
          q ∉ Manager.tracked s).
Proof.
  induction l as [|p l IH]; intros s w.
  - cbn. repeat split; auto.
    + set_solver.
    + intros ? Hin. apply elem_of_nil in Hin. contradiction.
    + intros ? Hin. apply elem_of_nil in Hin. contradiction.
  - cbn [Manager.scanLoop].
    destruct (Manager.devices (Manager.self s) !! p) as [a0|] eqn:Hp.
    + specialize (IH s w).
      destruct (Manager.scanLoop l s w) as [[s' w'] tr].
      destruct IH as (Ht & Hd & Hk & Hs & Hds & Hr).
      split; [|auto].
      rewrite Ht. cbn.
      assert (p ∈ Manager.tracked s)
        by (apply elem_of_dom; eauto).
      set_solver.
    + io_unfold.
      pose proof (new_trace p w) as Hn.
      destruct (Device.new p w) as [[d w1] tr0].
      destruct Hn as (_ & Hns & Hnq).
      specialize (IH (Manager.track p d s) w1).
      destruct (Manager.scanLoop l (Manager.track p d s) w1)
        as [[s' w'] tr].
      destruct IH as (Ht & Hd & Hk & Hs & Hds & Hr).
      rewrite tracked_track in Ht, Hds, Hr.
      assert (Hnot : p ∉ Manager.tracked s)
        by (unfold Manager.tracked; intros Hin;
            apply elem_of_dom in Hin as [? Hin]; congruence).
      split; [rewrite Ht; cbn; set_solver|].
      split; [exact Hd|].
      split.
      { intros q a dq Hq Ha.
        destruct (track_preserves p d s q a dq Hp Hq Ha) as [Hq' Ha'].
        exact (Hk q a dq Hq' Ha'). }
      rewrite msignals_app, deviceSignals_app, mrequests_app.
      rewrite msignals_ofDevice, deviceSignals_ofDevice,
        mrequests_ofDevice.
      split; [exact Hs|].
      split.
      { intros sg Hin. apply elem_of_app in Hin as [Hin|Hin].
        - rewrite (Hns sg Hin). exact Hnot.
        - specialize (Hds sg Hin). set_solver. }
      { intros q Hin. apply elem_of_app in Hin as [Hin|Hin].
        - rewrite (Hnq q Hin). exact Hnot.
        - specialize (Hr q Hin). set_solver. }
Qed.

(** When every path found is already tracked, the loop does nothing. *)
Lemma scanLoop_known (l : list string) (s : Manager.state) (w : W) :
  (forall p, p ∈ l -> p ∈ Manager.tracked s) ->
  Manager.scanLoop l s w = (s, w, []).
Proof.
  induction l as [|p l IH]; intros H; [reflexivity|].
  cbn [Manager.scanLoop].
  destruct (Manager.devices (Manager.self s) !! p) as [a|] eqn:Hp.
  - apply IH. intros q Hq. apply H. apply elem_of_cons. auto.
  - exfalso.
    assert (Hin : p ∈ Manager.tracked s)
      by (apply H, elem_of_cons; auto).
    unfold Manager.tracked in Hin.
    apply elem_of_dom in Hin as [? Hin]. congruence.
Qed.

(** [scanDevices] is one enumeration, the loop, and one
    [updatedDevices]. *)
Lemma scanDevices_unfold (s : Manager.state) (w : W) :
  Manager.scanDevices s w
  = let '(found, w0) := uDisks2.getDevices w in
    let '(s', w', tr) := Manager.scanLoop found s w0 in
    (s', w',
     Manager.Call uDisks2.GetDevices
     :: tr ++ [Manager.Emit Manager.updatedDevices]).
Proof.
  unfold Manager.scanDevices. io_unfold.
  destruct (uDisks2.getDevices w) as [found w0].
  destruct (Manager.scanLoop found s w0) as [[s' w'] tr].
  reflexivity.
Qed.


Lemma scanDevices_signals (s : Manager.state) (w : W) :
  Manager.signals (Manager.scanDevices s w).2 = [Manager.updatedDevices].
Proof.
  rewrite scanDevices_unfold.
  destruct (uDisks2.getDevices w) as [found w0].
  pose proof (scanLoop_spec found s w0) as H.
  destruct (Manager.scanLoop found s w0) as [[s' w'] tr].
  destruct H as (_ & _ & _ & Hs & _). cbn [snd].
  change (?a :: ?b ++ ?c) with ([a] ++ b ++ c).
  rewrite !msignals_app, Hs. reflexivity.
Qed.

(** C1, as the code has it.  [scanDevices] only ever adds: after it,
    the tracked paths are the paths tracked before together with the
    paths of the enumeration it made.  They are exactly the enumerated
    paths when nothing else was tracked before. *)
Theorem scanDevices_tracked (s : Manager.state) (w : W) :
  let '(found, _) := uDisks2.getDevices w in
  let '(s', _, _) := Manager.scanDevices s w in
  Manager.tracked s' = Manager.tracked s ∪ list_to_set found
  /\ (Manager.tracked s ⊆ list_to_set found ->
      Manager.tracked s' = list_to_set found).
Proof.
  rewrite scanDevices_unfold.
  destruct (uDisks2.getDevices w) as [found w0].
  pose proof (scanLoop_spec found s w0) as H.
  destruct (Manager.scanLoop found s w0) as [[s' w'] tr].
  destruct H as (Ht & _). rewrite Ht. split; [reflexivity|].
  intros Hsub. set_solver.
Qed.

(** C5.  [scanDevices] leaves every device it already tracks alone:
    the path keeps its object, the object keeps its state, no refresh
    is started for it and no device signal speaks of it.  Each run emits
    [updatedDevices] exactly once and no other signal of the manager.
    Run again on an enumeration with the same paths, it changes neither
    the registry nor any object, and does nothing but enumerate and
    emit [updatedDevices]. *)
Theorem scanDevices_idempotent (s : Manager.state) (w : W) :
  let '(found, _) := uDisks2.getDevices w in
  let '(s1, _, tr1) := Manager.scanDevices s w in
  (forall p a d,
     Manager.devices (Manager.self s) !! p = Some a ->
     Manager.heap s !! a = Some d ->
     Manager.devices (Manager.self s1) !! p = Some a
     /\ Manager.heap s1 !! a = Some d
     /\ (uDisks2.GetDrivePath p ∉ Manager.requests tr1)
     /\ (forall sg, sg ∈ Manager.deviceSignals tr1 ->
                    Device.signalPath sg <> p))
  /\ Manager.signals tr1 = [Manager.updatedDevices]
  /\ (forall w2 : W,
        (list_to_set (uDisks2.getDevices w2).1 : gset string)
        = list_to_set found ->
        Manager.scanDevices s1 w2
        = (s1, (uDisks2.getDevices w2).2,
           [Manager.Call uDisks2.GetDevices;
            Manager.Emit Manager.updatedDevices])).
Proof.
  pose proof (scanDevices_signals s w) as Hsig. revert Hsig.
  rewrite scanDevices_unfold.
  destruct (uDisks2.getDevices w) as [found w0].
  pose proof (scanLoop_spec found s w0) as H.
  destruct (Manager.scanLoop found s w0) as [[s1 w1] tr].
  destruct H as (Ht & _ & Hk & Hs & Hds & Hr). cbn [snd]. intros Hsig.
  split; [|split; [exact Hsig|]].
  - intros p a d Hp Ha.
    destruct (Hk p a d Hp Ha) as [Hp' Ha'].
    assert (Hin : p ∈ Manager.tracked s)
      by (apply elem_of_dom; eauto).
    split; [exact Hp'|]. split; [exact Ha'|].
    change (?a :: ?b ++ ?c) with ([a] ++ b ++ c).
    rewrite !mrequests_app, !deviceSignals_app. cbn.
    rewrite !app_nil_r. split.
    + rewrite elem_of_cons. intros [Heq|Hin']; [discriminate|].
      exact (Hr p Hin' Hin).
    + intros sg Hsg Heq. apply Hds in Hsg. congruence.
  - intros w2 Hsame. rewrite scanDevices_unfold.
    destruct (uDisks2.getDevices w2) as [found2 w3]. cbn [fst snd] in *.
    rewrite scanLoop_known; [reflexivity|].
    intros p Hp. rewrite Ht.
    assert (p ∈ (list_to_set found2 : gset string))
      by (apply elem_of_list_to_set; exact Hp).
    set_solver.
Qed.


(** C8, as the code has it.  With a presence handle: for a path under
    the jobs sub-namespace [deviceAdded] does nothing at all (no
    enumeration, no signal); for any other path, provided the handle is
    valid, it runs [scanDevices] and then emits [foundNewDevice] with
    the path of the notification. *)
Theorem deviceAdded_effect (obj : string) (s : Manager.state) (w : W)
    (i : QDBusInterface) :
  Manager.dbus (Manager.self s) = Some i ->
  (startsWith obj (uDisks2.DBUS_PATH +:+ "/jobs") = true ->
   Manager.deviceAdded obj s w = Some (s, w, []))
  /\ (startsWith obj (uDisks2.DBUS_PATH +:+ "/jobs") = false ->
      uDisks2.isValid i w = true ->
      Manager.deviceAdded obj s w
      = Some (let '(s', w', tr) := Manager.scanDevices s w in
              (s', w', tr ++ [Manager.Emit (Manager.foundNewDevice obj)]))
      /\ forall r, Manager.deviceAdded obj s w = Some r ->
                   Manager.signals r.2
                   = [Manager.updatedDevices; Manager.foundNewDevice obj]).
Proof.
  intros Hd. unfold Manager.deviceAdded. rewrite Hd. io_unfold. split.
  - intros Hj. rewrite Hj. destruct (uDisks2.isValid i w); reflexivity.
  - intros Hj Hv. rewrite Hj, Hv. cbn [negb].
    pose proof (scanDevices_signals s w) as Hs.
    destruct (Manager.scanDevices s w) as [[s' w'] tr]. cbn [snd] in Hs.
    split; [reflexivity|].
    intros r [= <-]. cbn [snd]. rewrite msignals_app, Hs. reflexivity.
Qed.

(** C2, as the code has it.  With a valid presence handle and a path
    that is not under the jobs sub-namespace, [deviceRemoved] ends with
    a run of [scanDevices] in two cases: when the path is not tracked,
    and when it is tracked and a fresh enumeration no longer lists it,
    the tracked device having been removed and destroyed first.  When
    the path is tracked and the fresh enumeration still lists it, the
    handler stops after that one enumeration: registry and devices are
    as before and nothing is emitted. *)
Theorem deviceRemoved_effect (obj : string) (s : Manager.state) (w : W)
    (i : QDBusInterface) :
  Manager.dbus (Manager.self s) = Some i ->
  uDisks2.isValid i w = true ->
  startsWith obj (uDisks2.DBUS_PATH +:+ "/jobs") = false ->
  (Manager.devices (Manager.self s) !! obj = None ->
   Manager.deviceRemoved obj s w = Some (Manager.scanDevices s w))
  /\ (forall a, Manager.devices (Manager.self s) !! obj = Some a ->
      let '(live, w1) := uDisks2.getDevices w in
      (obj ∈ live ->
       Manager.deviceRemoved obj s w
       = Some (s, w1, [Manager.Call uDisks2.GetDevices]))
      /\ (obj ∉ live ->
          Manager.deviceRemoved obj s w
          = Some (let '(s', w', tr) :=
                    Manager.scanDevices (Manager.deleteTake obj s) w1 in
                  (s', w', Manager.Call uDisks2.GetDevices :: tr))
          /\ Manager.devices (Manager.self (Manager.deleteTake obj s))
               !! obj = None
          /\ Manager.heap (Manager.deleteTake obj s) !! a = None)).
Proof.
  intros Hd Hv Hj. unfold Manager.deviceRemoved.
  rewrite Hd. io_unfold. rewrite Hv, Hj. cbn [negb]. split.
  - intros Hn. rewrite Hn.
    rewrite bool_decide_eq_false_2 by (intros [? ?]; discriminate).
    destruct (Manager.scanDevices s w) as [[s' w'] tr]. reflexivity.
  - intros a Ha. rewrite Ha.
    rewrite bool_decide_eq_true_2 by eauto.
    destruct (uDisks2.getDevices w) as [live w1]. split.
    + intros Hin. rewrite bool_decide_eq_true_2 by exact Hin.
      reflexivity.
    + intros Hin. rewrite bool_decide_eq_false_2 by exact Hin.
      split; [|split].
      * destruct (Manager.scanDevices (Manager.deleteTake obj s) w1)
          as [[s' w'] tr]. reflexivity.
      * unfold Manager.deleteTake. rewrite Ha. cbn.
        apply lookup_delete_eq.
      * unfold Manager.deleteTake. rewrite Ha. cbn.
        apply lookup_delete_eq.
Qed.

(** C10.  When the presence handle is not valid, both notification
    handlers return at once, for every path: the registry and the
    devices are unchanged, the world has not been asked anything (no
    enumeration), and nothing is emitted. *)
Theorem handlers_ignore_when_invalid (obj : string) (s : Manager.state)
    (w : W) (i : QDBusInterface) :
  Manager.dbus (Manager.self s) = Some i ->
  uDisks2.isValid i w = false ->
  Manager.deviceAdded obj s w = Some (s, w, [])
  /\ Manager.deviceRemoved obj s w = Some (s, w, []).
Proof.
  intros Hd Hv. unfold Manager.deviceAdded, Manager.deviceRemoved.
  rewrite Hd. io_unfold. rewrite Hv. split; reflexivity.
Qed.

End ManagerProperties.

(** ** Runs on the simulated service *)

Section Runs.

(** C1 fails as stated: the manager built while the stick was plugged
    in tracks the stick; an enumeration that lists only the disc leaves
    the stick tracked, so the tracked paths are not those of that
    enumeration. *)
Lemma scanDevices_keeps_unlisted_path :
  Manager.tracked (Manager.scanDevices (Sim.managerIn Sim.stick) Sim.disc).1.1
  <> list_to_set (uDisks2.getDevices Sim.disc).1.
Proof.
  intros H.
  apply (f_equal (fun X : gset string => bool_decide (Sim.sdb1 ∈ X))) in H.
  vm_compute in H. discriminate.
Qed.

Lemma scanDevices_tracked_witness :
  Manager.tracked (Sim.managerIn Sim.stick)
    ⊆ list_to_set (uDisks2.getDevices Sim.stick).1
  /\ Manager.tracked
       (Manager.scanDevices (Sim.managerIn Sim.stick) Sim.stick).1.1
     = list_to_set (uDisks2.getDevices Sim.stick).1.
Proof.
  assert (Hsub : Manager.tracked (Sim.managerIn Sim.stick)
                   ⊆ list_to_set (uDisks2.getDevices Sim.stick).1).
  { apply (bool_decide_unpack _). vm_compute. exact I. }
  split; [exact Hsub|].
  pose proof (scanDevices_tracked (Sim.managerIn Sim.stick) Sim.stick) as H.
  cbn [uDisks2.getDevices Sim.service] in H.
  destruct (Manager.scanDevices (Sim.managerIn Sim.stick) Sim.stick)
    as [[s' w'] tr].
  exact (proj2 H Hsub).
Defined.

(** C2 fails as stated: the stick is tracked and still listed when the
    removal notification arrives; the handler stops after its one
    enumeration, so its run does not end with a run of [scanDevices]
    (which would have emitted [updatedDevices]). *)
Lemma deviceRemoved_spurious_stops :
  startsWith Sim.sdb1 (uDisks2.DBUS_PATH +:+ "/jobs") = false
  /\ Manager.deviceRemoved Sim.sdb1 (Sim.managerIn Sim.stick) Sim.stick
     = Some (Sim.managerIn Sim.stick, Sim.stick,
             [Manager.Call uDisks2.GetDevices])
  /\ ~ (exists s1 w1 pre,
          Manager.deviceRemoved Sim.sdb1 (Sim.managerIn Sim.stick) Sim.stick
          = Some (let '(s', w', tr) := Manager.scanDevices s1 w1 in
                  (s', w', pre ++ tr))).
Proof.
  assert (Hrun : Manager.deviceRemoved Sim.sdb1 (Sim.managerIn Sim.stick)
                   Sim.stick
                 = Some (Sim.managerIn Sim.stick, Sim.stick,
                         [Manager.Call uDisks2.GetDevices]))
    by (vm_compute; reflexivity).
  split; [reflexivity|]. split; [exact Hrun|].
  intros (s1 & w1 & pre & H). rewrite Hrun in H.
  pose proof (scanDevices_signals s1 w1) as Hs.
  destruct (Manager.scanDevices s1 w1) as [[s' w'] tr]. cbn [snd] in Hs.
  injection H as _ _ H.
  apply (f_equal Manager.signals) in H.
  rewrite msignals_app, Hs in H. cbn in H.
  destruct (Manager.signals pre); discriminate.
Qed.

Lemma deviceRemoved_effect_witness :
  Manager.deviceRemoved Sim.sdb1 (Sim.managerIn Sim.stick) Sim.disc
  = Some (let '(s', w', tr) :=
            Manager.scanDevices
              (Manager.deleteTake Sim.sdb1 (Sim.managerIn Sim.stick))
              Sim.disc in
          (s', w', Manager.Call uDisks2.GetDevices :: tr)).
Proof.
  pose proof (deviceRemoved_effect Sim.sdb1 (Sim.managerIn Sim.stick)
                Sim.disc _ eq_refl eq_refl eq_refl) as [_ H].
  specialize (H 1%positive).
  cbn [uDisks2.getDevices Sim.service] in H.
  refine (proj1 (proj2 (H _) _)).
  - vm_compute. reflexivity.
  - vm_compute. intros Hin.
    repeat (apply elem_of_cons in Hin as [Hin|Hin]; [discriminate|]).
    apply elem_of_nil in Hin. exact Hin.
Defined.

(** C8 fails as stated: with the service gone the presence handle is
    not valid, and a notification for the stick (not a job) starts no
    enumeration and emits nothing. *)
Lemma deviceAdded_ignored_when_service_down :
  startsWith Sim.sdb1 (uDisks2.DBUS_PATH +:+ "/jobs") = false
  /\ Manager.deviceAdded Sim.sdb1 (Sim.managerIn Sim.stick) Sim.down
     = Some (Sim.managerIn Sim.stick, Sim.down, []).
Proof. split; [reflexivity|]. vm_compute. reflexivity. Qed.

Lemma deviceAdded_effect_witness :
  Manager.deviceAdded Sim.job7 (Sim.managerIn Sim.stick) Sim.disc
  = Some (Sim.managerIn Sim.stick, Sim.disc, [])
  /\ forall r,
       Manager.deviceAdded Sim.sr0 (Sim.managerIn Sim.stick) Sim.disc
       = Some r ->
       Manager.signals r.2
       = [Manager.updatedDevices; Manager.foundNewDevice Sim.sr0].
Proof.
  split.
  - apply (proj1 (deviceAdded_effect Sim.job7 (Sim.managerIn Sim.stick)
                    Sim.disc _ eq_refl)).
    reflexivity.
  - apply (proj2 (deviceAdded_effect Sim.sr0 (Sim.managerIn Sim.stick)
                    Sim.disc _ eq_refl)); reflexivity.
Defined.

Lemma handlers_ignore_when_invalid_witness :
  Manager.deviceAdded Sim.sr0 (Sim.managerIn Sim.stick) Sim.down
  = Some (Sim.managerIn Sim.stick, Sim.down, [])
  /\ Manager.deviceRemoved Sim.sr0 (Sim.managerIn Sim.stick) Sim.down
     = Some (Sim.managerIn Sim.stick, Sim.down, []).
Proof.
  apply (handlers_ignore_when_invalid Sim.sr0 (Sim.managerIn Sim.stick)
           Sim.down _ eq_refl).
  reflexivity.
Defined.

Lemma scanDevices_idempotent_witness :
  Manager.devices (Manager.self (Sim.managerIn Sim.stick)) !! Sim.sdb1
  = Some 1%positive
  /\ Manager.heap (Sim.managerIn Sim.stick) !! 1%positive = Some Sim.usb
  /\ Manager.heap
       (Manager.scanDevices (Sim.managerIn Sim.stick) Sim.disc).1.1
       !! 1%positive
     = Some Sim.usb.
Proof.
  assert (Hp : Manager.devices (Manager.self (Sim.managerIn Sim.stick))
                 !! Sim.sdb1 = Some 1%positive)
    by (vm_compute; reflexivity).
  assert (Ha : Manager.heap (Sim.managerIn Sim.stick) !! 1%positive
               = Some Sim.usb)
    by (vm_compute; reflexivity).
  split; [exact Hp|]. split; [exact Ha|].
  pose proof (scanDevices_idempotent (Sim.managerIn Sim.stick) Sim.disc)
    as H.
  cbn [uDisks2.getDevices Sim.service] in H.
  destruct (Manager.scanDevices (Sim.managerIn Sim.stick) Sim.disc)
    as [[s1 w1] tr1].
  exact (proj1 (proj2 (proj1 H _ _ _ Hp Ha))).
Defined.


(** C3 fails as stated.  The disc is mounted and the handle is valid;
    the adapter accepts the unmount (empty reply) and the refresh finds
    the mount point empty, yet the run of [unmount] emits an error: the
    one of the [eject] it goes on with, the tray being locked.  And
    where the unmount is accepted without taking effect, the message is
    "Failed to umount DVD". *)
Lemma unmount_error_without_unmount_failure :
  uDisks2.isValid (Device.dbus Sim.dvd) Sim.lockedTray = true
  /\ Device.mountpoint Sim.dvd <> EmptyString
  /\ ~ ((exists p e,
           Device.errorMessage p e
             ∈ Device.signals (Device.unmount Sim.dvd Sim.lockedTray).2)
        <-> (uDisks2.unmountDevice (Device.path Sim.dvd) Sim.lockedTray).1
            <> EmptyString
            \/ Device.mountpoint
                 (Device.updateDeviceProperties Sim.dvd
                    (uDisks2.unmountDevice (Device.path Sim.dvd)
                       Sim.lockedTray).2).1.1
               <> EmptyString)
  /\ Device.signals (Device.unmount Sim.dvd Sim.stuck).2
     = [Device.errorMessage Sim.sr0 "Failed to umount DVD"].
Proof.
  split; [reflexivity|]. split; [discriminate|]. split; [|reflexivity].
  intros [H _].
  destruct H as [H|H]; [|exact (H eq_refl)|exact (H eq_refl)].
  exists Sim.sr0, "drive is locked". vm_compute.
  repeat constructor.
Qed.

Lemma unmount_error_policy_witness :
  uDisks2.isValid (Device.dbus Sim.dvd) Sim.stuck = true
  /\ Device.mountpoint Sim.dvd <> EmptyString
  /\ (exists p e,
        Device.errorMessage p e
          ∈ Device.signals (Device.unmount Sim.dvd Sim.stuck).2).
Proof.
  assert (Hm : Device.mountpoint Sim.dvd <> EmptyString) by discriminate.
  split; [reflexivity|]. split; [exact Hm|].
  pose proof (unmount_error_policy Sim.dvd Sim.stuck eq_refl Hm) as H.
  cbn [uDisks2.unmountDevice Sim.service] in H.
  destruct (Device.updateDeviceProperties Sim.dvd _) as [[d1 w2] tr1] eqn:E.
  destruct (Device.unmount Sim.dvd Sim.stuck) as [[d' w'] tr].
  destruct H as (_ & H & _).
  vm_compute in E. injection E as <- _ _.
  destruct H as (_ & _ & msg & -> & _); [right; discriminate|].
  exists (Device.path Sim.dvd), msg. cbn [snd].
  change (?a :: ?b ++ ?c) with ([a] ++ b ++ c).
  rewrite !signals_app, !elem_of_app. right. right. left.
Defined.

Lemma unmount_ejects_optical_witness :
  uDisks2.isValid (Device.dbus Sim.dvd) Sim.disc = true
  /\ Device.mountpoint Sim.dvd <> EmptyString
  /\ uDisks2.EjectDevice Sim.theDrive
       ∈ Device.requests (Device.unmount Sim.dvd Sim.disc).2.
Proof.
  assert (Hm : Device.mountpoint Sim.dvd <> EmptyString) by discriminate.
  split; [reflexivity|]. split; [exact Hm|].
  pose proof (unmount_ejects_optical Sim.dvd Sim.disc eq_refl Hm) as H.
  cbn [uDisks2.unmountDevice Sim.service] in H.
  destruct (Device.updateDeviceProperties Sim.dvd _) as [[d1 w2] tr1] eqn:E.
  vm_compute in E. injection E as <- <- _.
  exact (proj1 (proj2 (H eq_refl eq_refl)) eq_refl eq_refl).
Defined.

Lemma updateDeviceProperties_emits_changes_witness :
  uDisks2.isValid (Device.dbus Sim.usb) Sim.stickMounted = true
  /\ Device.mountpoint
       (Device.updateDeviceProperties Sim.usb Sim.stickMounted).1.1
     = "/media/disc"
  /\ Device.mountpointChanged Sim.sdb1 "/media/disc"
       ∈ Device.signals
           (Device.updateDeviceProperties Sim.usb Sim.stickMounted).2.
Proof.
  split; [reflexivity|].
  pose proof (updateDeviceProperties_emits_changes Sim.usb Sim.stickMounted
                eq_refl) as H.
  cbn [uDisks2.getDrivePath uDisks2.getDeviceName uDisks2.isRemovable
       uDisks2.getMountPoint uDisks2.getFileSystem uDisks2.isOptical
       uDisks2.hasMedia uDisks2.opticalDataTracks
       uDisks2.opticalAudioTracks uDisks2.opticalMediaIsBlank
       uDisks2.hasPartition Sim.service] in H.
  destruct (Device.updateDeviceProperties Sim.usb Sim.stickMounted)
    as [[d' w'] tr].
  destruct H as (Hd & _ & _ & _ & H & _). cbn [fst snd].
  split; [rewrite Hd; reflexivity|].
  apply H.
  split; [reflexivity|]. split; [reflexivity|]. discriminate.
Defined.

Lemma mount_effect_witness :
  Device.mount Sim.usbMounted Sim.stickMounted
  = (Sim.usbMounted, Sim.stickMounted, [])
  /\ Device.mount Sim.usb Sim.refused
     = (Sim.usb, Sim.refused,
        [Device.Call (uDisks2.MountDevice Sim.sdb1);
         Device.Emit (Device.errorMessage Sim.sdb1 "not authorized")]).
Proof.
  split.
  - apply (proj1 (mount_effect Sim.usbMounted Sim.stickMounted)).
    right. discriminate.
  - pose proof (proj2 (mount_effect Sim.usb Sim.refused) eq_refl eq_refl)
      as H.
    cbn [uDisks2.mountDevice Sim.service] in H.
    apply (proj1 H). discriminate.
Defined.

Lemma eject_reports_reply_witness :
  uDisks2.isValid (Device.dbus Sim.dvd) Sim.lockedTray = true
  /\ Device.errorMessage Sim.sr0 "drive is locked"
       ∈ Device.signals (Device.eject Sim.dvd Sim.lockedTray).2.
Proof.
  split; [reflexivity|].
  pose proof (eject_reports_reply Sim.dvd Sim.lockedTray eq_refl) as H.
  cbn [uDisks2.ejectDevice Sim.service] in H.
  destruct (Device.updateDeviceProperties Sim.dvd _) as [[d1 w2] tr1].
  destruct (Device.eject Sim.dvd Sim.lockedTray) as [[d' w'] tr].
  destruct H as (_ & _ & _ & H & _). cbn [snd]. apply H.
  split; [discriminate|]. split; reflexivity.
Defined.

End Runs.

(** * Further properties of [Device] *)

Section DeviceSlots.
Context {W : Type} {udisks : uDisks2.Service W}.

Lemma filter_none {A} (f : A -> bool) (l : list A) :
  (forall x, x ∈ l -> f x = false) -> List.filter f l = [].
Proof.
  induction l as [|x l IH]; intros H; [reflexivity|]. cbn.
  rewrite (H x) by (apply elem_of_cons; auto).
  apply IH. intros y Hy. apply H, elem_of_cons. auto.
Qed.

Lemma errors_app (a b : list Device.event) :
  errors (a ++ b) = errors a ++ errors b.
Proof. unfold errors. rewrite signals_app. apply List.filter_app. Qed.

Lemma errors_refresh (d : Device.t) (w : W) :
  errors (Device.updateDeviceProperties d w).2 = [].
Proof.
  pose proof (updateDeviceProperties_trace d w) as H.
  destruct (Device.updateDeviceProperties d w) as [[d' w'] tr].
  destruct H as (_ & _ & H & _). apply filter_none.
  intros s Hs. apply H in Hs as [Hs _]. exact Hs.
Qed.

(** The three actions, guard included, step by step. *)
Lemma mount_run (d : Device.t) (w : W) :
  Device.mount d w
  = if negb (uDisks2.isValid (Device.dbus d) w)
       || negb (isEmpty (Device.mountpoint d))
    then (d, w, [])
    else
      let '(reply, w1) := uDisks2.mountDevice (Device.path d) w in
      let asked := Device.Call (uDisks2.MountDevice (Device.path d)) in
      if negb (isEmpty reply) then
        (d, w1,
         [asked; Device.Emit (Device.errorMessage (Device.path d) reply)])
      else
        let '(d', w2, tr) := Device.updateDeviceProperties d w1 in
        (d', w2, asked :: tr).
Proof.
  unfold Device.mount. io_unfold.
  destruct (negb (uDisks2.isValid (Device.dbus d) w)
            || negb (isEmpty (Device.mountpoint d))); [reflexivity|].
  destruct (uDisks2.mountDevice (Device.path d) w) as [reply w1].
  destruct (negb (isEmpty reply)); [reflexivity|].
  destruct (Device.updateDeviceProperties d w1) as [[d' w2] tr].
  reflexivity.
Qed.

Lemma eject_invalid (d : Device.t) (w : W) :
  uDisks2.isValid (Device.dbus d) w = false ->
  Device.eject d w = (d, w, []).
Proof.
  intros H. unfold Device.eject. io_unfold. rewrite H. reflexivity.
Qed.

Lemma unmount_guarded (d : Device.t) (w : W) :
  uDisks2.isValid (Device.dbus d) w = false
  \/ Device.mountpoint d = EmptyString ->
  Device.unmount d w = (d, w, []).
Proof.
  intros H. unfold Device.unmount. io_unfold.
  destruct H as [H|H]; rewrite H; [reflexivity|].
  destruct (uDisks2.isValid (Device.dbus d) w); reflexivity.
Qed.

Lemma slot_ok_idle (d : Device.t) (w : W) : slot_ok d (d, w, []).
Proof.
  unfold slot_ok. cbn. repeat split; auto.
  intros s Hs. apply elem_of_nil in Hs. contradiction.
Qed.

Lemma slot_ok_refresh (d : Device.t) (w : W) :
  slot_ok d (Device.updateDeviceProperties d w).
Proof.
  pose proof (updateDeviceProperties_trace d w) as H.
  pose proof (errors_refresh d w) as He.
  destruct (Device.updateDeviceProperties d w) as [[d' w'] tr].
  destruct H as (Hp & Hd & Hs & _). cbn [snd] in He.
  unfold slot_ok. cbn [fst snd]. rewrite He.
  split; [exact Hp|]. split; [exact Hd|]. split; [|cbn; lia].
  intros s Hin. apply Hs in Hin as [_ Hin]. exact Hin.
Qed.

Lemma slot_ok_mount (d : Device.t) (w : W) : slot_ok d (Device.mount d w).
Proof.
  rewrite mount_run.
  destruct (negb (uDisks2.isValid (Device.dbus d) w)
            || negb (isEmpty (Device.mountpoint d)));
    [apply slot_ok_idle|].
  destruct (uDisks2.mountDevice (Device.path d) w) as [reply w1].
  destruct (negb (isEmpty reply)).
  - unfold slot_ok. cbn. repeat split; auto.
    intros s Hs. apply list_elem_of_singleton in Hs. subst s. reflexivity.
  - pose proof (slot_ok_refresh d w1) as H.
    destruct (Device.updateDeviceProperties d w1) as [[d' w2] tr].
    exact H.
Qed.

Lemma slot_ok_eject (d : Device.t) (w : W) : slot_ok d (Device.eject d w).
Proof.
  destruct (uDisks2.isValid (Device.dbus d) w) eqn:Hv.
  - rewrite (eject_valid d w Hv).
    destruct (uDisks2.ejectDevice (Device.drive d) w) as [reply w1].
    pose proof (slot_ok_refresh d w1) as H.
    pose proof (errors_refresh d w1) as He.
    destruct (Device.updateDeviceProperties d w1) as [[d1 w2] tr1].
    destruct H as (Hp & Hd & Hs & _). cbn [fst snd] in *.
    unfold slot_ok. cbn [fst snd].
    split; [exact Hp|]. split; [exact Hd|].
    change (?a :: ?b ++ ?c) with ([a] ++ b ++ c).
    rewrite !signals_app, !errors_app, He.
    split.
    + intros s. rewrite !elem_of_app. intros [Hin|[Hin|Hin]].
      * apply elem_of_nil in Hin. contradiction.
      * apply Hs. exact Hin.
      * destruct reply; cbn in Hin.
        -- apply elem_of_nil in Hin. contradiction.
        -- apply list_elem_of_singleton in Hin. subst s. exact Hp.
    + destruct reply; cbn; lia.
  - rewrite (eject_invalid d w Hv). apply slot_ok_idle.
Qed.


Lemma slot_ok_unmount (d : Device.t) (w : W) :
  slot_ok d (Device.unmount d w).
Proof.
  destruct (uDisks2.isValid (Device.dbus d) w) eqn:Hv;
    [|rewrite unmount_guarded by auto; apply slot_ok_idle].
  destruct (isEmpty (Device.mountpoint d)) eqn:Hm.
  { apply isEmpty_true in Hm.
    rewrite unmount_guarded by auto. apply slot_ok_idle. }
  apply isEmpty_false in Hm. rewrite (unmount_valid d w Hv Hm).
  destruct (uDisks2.unmountDevice (Device.path d) w) as [reply w1].
  pose proof (slot_ok_refresh d w1) as H.
  pose proof (errors_refresh d w1) as He.
  destruct (Device.updateDeviceProperties d w1) as [[d1 w2] tr1].
  destruct H as (Hp & Hd & Hs & _). cbn [fst snd] in *. cbv zeta.
  destruct (negb (isEmpty reply) || negb (isEmpty (Device.mountpoint d1))).
  - unfold slot_ok. cbn [fst snd].
    split; [exact Hp|]. split; [exact Hd|].
    change (?a :: ?b ++ ?c) with ([a] ++ b ++ c).
    rewrite !signals_app, !errors_app, He. split; [|cbn; lia].
    intros s. rewrite !elem_of_app. intros [Hin|[Hin|Hin]].
    + apply elem_of_nil in Hin. contradiction.
    + apply Hs. exact Hin.
    + apply list_elem_of_singleton in Hin. subst s. exact Hp.
  - destruct (Device.isOptical d1).
    + pose proof (slot_ok_eject d1 w2) as H2.
      destruct (Device.eject d1 w2) as [[d2 w3] tr2].
      destruct H2 as (Hp2 & Hd2 & Hs2 & He2). cbn [fst snd] in *.
      unfold slot_ok. cbn [fst snd].
      split; [congruence|]. split; [congruence|].
      change (?a :: ?b ++ ?c) with ([a] ++ b ++ c).
      rewrite !signals_app, !errors_app, He. split; [|exact He2].
      intros s. rewrite !elem_of_app. intros [Hin|[Hin|Hin]].
      * apply elem_of_nil in Hin. contradiction.
      * apply Hs. exact Hin.
      * rewrite <- Hp. apply Hs2. exact Hin.
    + unfold slot_ok. cbn [fst snd].
      split; [exact Hp|]. split; [exact Hd|].
      change (?a :: ?b) with ([a] ++ b).
      rewrite !signals_app, !errors_app, He. split; [|cbn; lia].
      intros s. rewrite !elem_of_app. intros [Hin|Hin].
      * apply elem_of_nil in Hin. contradiction.
      * apply Hs. exact Hin.
Qed.

(** X1.  No slot of a device changes its path or its bus handle: they
    are what the constructor made them for as long as the object
    lives. *)
Theorem slots_keep_path_and_handle (d : Device.t) (w : W) :
  (Device.path (Device.mount d w).1.1 = Device.path d
   /\ Device.dbus (Device.mount d w).1.1 = Device.dbus d)
  /\ (Device.path (Device.unmount d w).1.1 = Device.path d
      /\ Device.dbus (Device.unmount d w).1.1 = Device.dbus d)
  /\ (Device.path (Device.eject d w).1.1 = Device.path d
      /\ Device.dbus (Device.eject d w).1.1 = Device.dbus d)
  /\ (Device.path (Device.handlePropertiesChanged d w).1.1 = Device.path d
      /\ Device.dbus (Device.handlePropertiesChanged d w).1.1
         = Device.dbus d).
Proof.
  destruct (slot_ok_mount d w) as (? & ? & _).
  destruct (slot_ok_unmount d w) as (? & ? & _).
  destruct (slot_ok_eject d w) as (? & ? & _).
  destruct (slot_ok_refresh d w) as (? & ? & _).
  unfold Device.handlePropertiesChanged. auto.
Qed.

(** X2.  Every signal a slot of a device emits, change or error, carries
    the path of that device. *)
Theorem slots_signal_own_path (d : Device.t) (w : W) (s : Device.signal) :
  s ∈ Device.signals (Device.mount d w).2
  \/ s ∈ Device.signals (Device.unmount d w).2
  \/ s ∈ Device.signals (Device.eject d w).2
  \/ s ∈ Device.signals (Device.handlePropertiesChanged d w).2 ->
  Device.signalPath s = Device.path d.
Proof.
  destruct (slot_ok_mount d w) as (_ & _ & Hm & _).
  destruct (slot_ok_unmount d w) as (_ & _ & Hu & _).
  destruct (slot_ok_eject d w) as (_ & _ & He & _).
  destruct (slot_ok_refresh d w) as (_ & _ & Hr & _).
  unfold Device.handlePropertiesChanged.
  intros [H|[H|[H|H]]]; auto.
Qed.

(** X3.  One call of [mount], [unmount] or [eject] emits at most one
    [errorMessage], also when [unmount] goes on with [eject]; a refresh
    emits none. *)
Theorem slots_report_one_error_at_most (d : Device.t) (w : W) :
  length (errors (Device.mount d w).2) <= 1
  /\ length (errors (Device.unmount d w).2) <= 1
  /\ length (errors (Device.eject d w).2) <= 1
  /\ errors (Device.handlePropertiesChanged d w).2 = [].
Proof.
  destruct (slot_ok_mount d w) as (_ & _ & _ & Hm).
  destruct (slot_ok_unmount d w) as (_ & _ & _ & Hu).
  destruct (slot_ok_eject d w) as (_ & _ & _ & He).
  unfold Device.handlePropertiesChanged.
  auto using errors_refresh.
Qed.

(** X4.  A device whose bus handle is not valid ignores every slot:
    nothing is asked of the service, nothing is emitted, and the cached
    attributes stay as they were. *)
Theorem stale_device_ignores_slots (d : Device.t) (w : W) :
  uDisks2.isValid (Device.dbus d) w = false ->
  Device.mount d w = (d, w, [])
  /\ Device.unmount d w = (d, w, [])
  /\ Device.eject d w = (d, w, [])
  /\ Device.handlePropertiesChanged d w = (d, w, []).
Proof.
  intros H. split; [|split; [|split]].
  - rewrite mount_run, H. reflexivity.
  - apply unmount_guarded. auto.
  - apply eject_invalid. exact H.
  - apply updateDeviceProperties_invalid. exact H.
Qed.

(** X5.  A device built for a path whose [Block] interface is not valid
    asks nothing and emits nothing, and all its attributes but the path
    have their initial values: empty strings, cleared flags, no
    tracks. *)
Theorem new_without_service (block : string) (w : W) :
  uDisks2.isValid {| service := uDisks2.DBUS_SERVICE;
                     object := block;
                     interface := uDisks2.DBUS_SERVICE +:+ ".Block" |} w
  = false ->
  let '(d, w', tr) := Device.new block w in
  w' = w /\ tr = []
  /\ Device.path d = block
  /\ Device.name d = EmptyString /\ Device.dev d = EmptyString
  /\ Device.drive d = EmptyString /\ Device.mountpoint d = EmptyString
  /\ Device.filesystem d = EmptyString
  /\ Device.isOptical d = false /\ Device.isRemovable d = false
  /\ Device.hasMedia d = false /\ Device.isBlankDisc d = false
  /\ Device.hasPartition d = false
  /\ Device.opticalDataTracks d = 0%Z
  /\ Device.opticalAudioTracks d = 0%Z.
Proof.
  intros H. unfold Device.new.
  rewrite updateDeviceProperties_invalid by exact H.
  repeat split.
Qed.



(** X7.  An unmount that goes through (empty reply, and the refreshed
    mount point is empty) has announced it: [mountpointChanged] with this
    device's path and the empty mount point is among its signals. *)
Theorem unmount_success_is_announced (d : Device.t) (w : W) :
  uDisks2.isValid (Device.dbus d) w = true ->
  Device.mountpoint d <> EmptyString ->
  let '(reply, w1) := uDisks2.unmountDevice (Device.path d) w in
  let '(d1, _, _) := Device.updateDeviceProperties d w1 in
  reply = EmptyString ->
  Device.mountpoint d1 = EmptyString ->
  Device.mountpointChanged (Device.path d) EmptyString
    ∈ Device.signals (Device.unmount d w).2.
Proof.
  intros Hv Hm. rewrite (unmount_valid d w Hv Hm).
  destruct (uDisks2.unmountDevice (Device.path d) w) as [reply w1].
  destruct (uDisks2.isValid (Device.dbus d) w1) eqn:Hv1.
  - destruct (updateDeviceProperties_valid d w1 Hv1)
      as (d1 & w2 & -> & Hp & _).
    intros -> Hm1. cbv zeta. rewrite Hm1. cbn [isEmpty negb orb].
    assert (Hin : Device.mountpointChanged (Device.path d) EmptyString
                    ∈ changes d d1).
    { apply changes_mountpoint. rewrite Hp, Hm1. auto. }
    destruct (Device.isOptical d1).
    + destruct (Device.eject d1 w2) as [[d2 w3] tr2]. cbn [snd].
      change (?a :: (?b ++ ?c) ++ ?e) with ([a] ++ b ++ c ++ e).
      rewrite !signals_app, signals_calls, signals_emits.
      rewrite !elem_of_app. auto.
    + cbn [snd].
      change (?a :: ?b ++ ?c) with ([a] ++ b ++ c).
      rewrite !signals_app, signals_calls, signals_emits.
      rewrite !elem_of_app. auto.
  - rewrite updateDeviceProperties_invalid by exact Hv1.
    intros _ Hm1. contradiction.
Qed.


End DeviceSlots.

(** ** The device node name *)

Section Segments.
Context {W : Type} {udisks : uDisks2.Service W}.

Lemma split_cons (sep : ascii) (s : string) :
  exists part parts, split sep s = part :: parts.
Proof.
  destruct s as [|c s]; cbn; [eauto|].
  destruct (Ascii.eqb c sep); [eauto|].
  destruct (split sep s); eauto.
Qed.

(** Splitting loses nothing: joining the parts gives the string back. *)
Lemma join_split (sep : ascii) (s : string) : join sep (split sep s) = s.
Proof.
  induction s as [|c s IH]; [reflexivity|]. cbn [split].
  destruct (split_cons sep s) as (part & parts & E).
  rewrite E in *.
  destruct (Ascii.eqb c sep) eqn:Hc.
  - apply Ascii.eqb_eq in Hc. subst c.
    change (join sep (EmptyString :: part :: parts))
      with (String sep (join sep (part :: parts))).
    rewrite IH. reflexivity.
  - rewrite <- IH. destruct parts; reflexivity.
Qed.

Lemma split_no_sep (sep : ascii) (s part : string) :
  part ∈ split sep s -> forall a b, part <> a +:+ String sep b.
Proof.
  revert part. induction s as [|c s IH]; intros part; cbn [split].
  - intros Hin a b. apply list_elem_of_singleton in Hin. subst part.
    destruct a; discriminate.
  - destruct (Ascii.eqb c sep) eqn:Hc.
    + intros Hin. apply elem_of_cons in Hin as [->|Hin]; [|auto].
      intros a b. destruct a; discriminate.
    + destruct (split_cons sep s) as (p0 & parts & E). rewrite E in *.
      intros Hin. apply elem_of_cons in Hin as [->|Hin].
      * intros a b Heq. destruct a as [|c' a]; cbn in Heq.
        -- injection Heq as -> _. rewrite Ascii.eqb_refl in Hc.
           discriminate.
        -- injection Heq as _ Heq.
           exact (IH p0 ltac:(apply elem_of_cons; auto) a b Heq).
      * apply IH. apply elem_of_cons. auto.
Qed.

Lemma append_assoc (a b c : string) : (a +:+ b) +:+ c = a +:+ (b +:+ c).
Proof.
  induction a as [|x a IH]; [reflexivity|].
  change (String x ((a +:+ b) +:+ c) = String x (a +:+ (b +:+ c))).
  f_equal. exact IH.
Qed.

Lemma takeLast_in (part : string) (parts : list string) :
  takeLast (part :: parts) ∈ part :: parts.
Proof.
  unfold takeLast. revert part.
  induction parts as [|p parts IH]; intros part.
  - apply elem_of_cons. auto.
  - apply elem_of_cons. right. exact (IH p).
Qed.

Lemma join_takeLast (sep : ascii) (part : string) (parts : list string) :
  exists pre,
    join sep (part :: parts) = pre +:+ takeLast (part :: parts)
    /\ (pre = EmptyString
        \/ exists pre', pre = pre' +:+ String sep EmptyString).
Proof.
  unfold takeLast. revert part.
  induction parts as [|p parts IH]; intros part.
  - exists EmptyString. split; [reflexivity | auto].
  - destruct (IH p) as (pre & E & Hpre).
    exists (part +:+ String sep pre).
    change (join sep (part :: p :: parts))
      with (part +:+ String sep (join sep (p :: parts))).
    change (List.last (part :: p :: parts) EmptyString)
      with (List.last (p :: parts) EmptyString).
    rewrite E. split.
    + rewrite append_assoc. reflexivity.
    + right. destruct Hpre as [->|(pre' & ->)].
      * exists part. reflexivity.
      * exists (part +:+ String sep pre').
        rewrite append_assoc. reflexivity.
Qed.

Lemma updateDeviceProperties_dev (d : Device.t) (w : W) :
  uDisks2.isValid (Device.dbus d) w = true ->
  Device.dev (Device.updateDeviceProperties d w).1.1
  = takeLast (split "/" (Device.path d)).
Proof.
  intros H.
  destruct (Device.updateDeviceProperties d w) as [[d' w'] tr] eqn:E.
  revert E. unfold Device.updateDeviceProperties. io_unfold.
  rewrite H. cbn [negb]. io_run. cbn.
  destruct (Bool.eqb (Device.hasMedia d) _);
    destruct (String.eqb (Device.mountpoint d) _);
    destruct (String.eqb (Device.name d) _);
    cbn; intros [= <- <- <-]; reflexivity.
Qed.

(** X9.  After a refresh behind a valid handle, [dev] is the last
    segment of the path: it holds no "/", and the path is [dev] itself
    or ends in "/" followed by [dev]. *)
Theorem refresh_dev_is_last_segment (d : Device.t) (w : W) :
  uDisks2.isValid (Device.dbus d) w = true ->
  let dev := Device.dev (Device.updateDeviceProperties d w).1.1 in
  (exists pre,
     Device.path d = pre +:+ dev
     /\ (pre = EmptyString \/ exists pre', pre = pre' +:+ "/"))
  /\ forall a b, dev <> a +:+ "/" +:+ b.
Proof.
  intros H. cbv zeta. rewrite (updateDeviceProperties_dev d w H).
  destruct (split_cons "/" (Device.path d)) as (part & parts & E).
  split.
  - destruct (join_takeLast "/" part parts) as (pre & Hj & Hpre).
    exists pre. rewrite E, <- Hj, <- E, join_split. auto.
  - apply (split_no_sep "/" (Device.path d)).
    rewrite E. apply takeLast_in.
Qed.

End Segments.

(** * Further properties of [Manager] *)

Section ManagerInvariants.
Context {W : Type} {udisks : uDisks2.Service W}.

Lemma registry_ok_spec (s : Manager.state) :
  registry_ok s <->
  (forall p a,
     Manager.devices (Manager.self s) !! p = Some a ->
     exists d, Manager.heap s !! a = Some d /\ Device.path d = p)
  /\ (forall a d,
        Manager.heap s !! a = Some d ->
        Manager.devices (Manager.self s) !! Device.path d = Some a).
Proof.
  unfold registry_ok. rewrite !map_Forall_lookup.
  split; intros [H1 H2]; (split; [|exact H2]); intros p a Hp.
  - pose proof (H1 p a Hp) as H. apply fmap_Some in H as (d & Hd & ->).
    eauto.
  - destruct (H1 p a Hp) as (d & Hd & <-). rewrite Hd. reflexivity.
Qed.

Lemma registry_ok_track (p : string) (d : Device.t) (s : Manager.state) :
  Manager.devices (Manager.self s) !! p = None ->
  Device.path d = p ->
  registry_ok s -> registry_ok (Manager.track p d s).
Proof.
  intros Hp Hd. rewrite !registry_ok_spec. intros [H1 H2].
  pose proof (is_fresh (dom (Manager.heap s))) as Hf.
  unfold Manager.track. cbn. split.
  - intros q b Hq. destruct (decide (p = q)) as [<-|Hne].
    + rewrite lookup_insert_eq in Hq. injection Hq as <-.
      exists d. rewrite lookup_insert_eq. auto.
    + rewrite lookup_insert_ne in Hq by exact Hne.
      destruct (H1 q b Hq) as (dq & Hb & Hpq).
      exists dq. split; [|exact Hpq].
      rewrite lookup_insert_ne; [exact Hb|].
      intros Heq. rewrite Heq in Hf. apply Hf, elem_of_dom. eauto.
  - intros b e Hb.
    destruct (decide (fresh (dom (Manager.heap s)) = b)) as [Heq|Hne].
    + rewrite Heq in Hb. rewrite lookup_insert_eq in Hb.
      injection Hb as <-. rewrite Hd, Heq. apply lookup_insert_eq.
    + rewrite lookup_insert_ne in Hb by exact Hne.
      pose proof (H2 b e Hb) as He.
      rewrite lookup_insert_ne; [exact He|]. congruence.
Qed.

Lemma registry_ok_deleteTake (obj : string) (s : Manager.state) :
  registry_ok s -> registry_ok (Manager.deleteTake obj s).
Proof.
  unfold Manager.deleteTake.
  destruct (Manager.devices (Manager.self s) !! obj) as [a|] eqn:Ho;
    [|auto].
  rewrite !registry_ok_spec. intros [H1 H2]. cbn. split.
  - intros q b Hq. apply lookup_delete_Some in Hq as [Hne Hq].
    destruct (H1 q b Hq) as (dq & Hb & Hpq).
    exists dq. split; [|exact Hpq].
    apply lookup_delete_Some. split; [|exact Hb].
    intros <-. destruct (H1 obj a Ho) as (da & Ha & Hpa). congruence.
  - intros b e Hb. apply lookup_delete_Some in Hb as [Hne Hb].
    pose proof (H2 b e Hb) as He.
    apply lookup_delete_Some. split; [|exact He]. congruence.
Qed.

Lemma scanLoop_registry_ok (l : list string) :
  forall (s : Manager.state) (w : W),
    registry_ok s -> registry_ok (Manager.scanLoop l s w).1.1.
Proof.
  induction l as [|p l IH]; intros s w Hok; [exact Hok|].
  cbn [Manager.scanLoop].
  destruct (Manager.devices (Manager.self s) !! p) as [a|] eqn:Hp;
    [apply IH; exact Hok|].
  io_unfold.
  pose proof (new_trace p w) as Hn.
  destruct (Device.new p w) as [[d w1] tr0].
  destruct Hn as (Hd & _).
  specialize (IH (Manager.track p d s) w1
                (registry_ok_track p d s Hp Hd Hok)).
  destruct (Manager.scanLoop l (Manager.track p d s) w1) as [[s' w'] tr].
  exact IH.
Qed.

(** What one run of [scanDevices] does, in one place. *)
Lemma scanDevices_facts (s : Manager.state) (w : W) :
  Manager.tracked (Manager.scanDevices s w).1.1
  = Manager.tracked s ∪ list_to_set (uDisks2.getDevices w).1
  /\ Manager.dbus (Manager.self (Manager.scanDevices s w).1.1)
     = Manager.dbus (Manager.self s)
  /\ (forall p a d,
        Manager.devices (Manager.self s) !! p = Some a ->
        Manager.heap s !! a = Some d ->
        Manager.devices (Manager.self (Manager.scanDevices s w).1.1) !! p
        = Some a
        /\ Manager.heap (Manager.scanDevices s w).1.1 !! a = Some d)
  /\ (registry_ok s -> registry_ok (Manager.scanDevices s w).1.1).
Proof.
  rewrite scanDevices_unfold.
  destruct (uDisks2.getDevices w) as [found w0].
  pose proof (scanLoop_spec found s w0) as H.
  pose proof (scanLoop_registry_ok found s w0) as Hok.
  destruct (Manager.scanLoop found s w0) as [[s' w'] tr].
  destruct H as (Ht & Hd & Hk & _). cbn [fst snd] in *. auto.
Qed.

Lemma setupDBus_registry_ok (s : Manager.state) (w : W) :
  registry_ok s -> registry_ok (Manager.setupDBus s w).1.1.
Proof.
  intros Hok. unfold Manager.setupDBus.
  destruct (uDisks2.isConnected w); [|exact Hok].
  apply scanDevices_facts. exact Hok.
Qed.

(** X10.  The manager its constructor returns has a registry that agrees
    with its objects: every tracked path points to a live [Device] built
    for that path, no [Device] is left outside the registry, and no two
    paths share one. *)
Theorem new_manager_registry_ok (w : W) :
  registry_ok (Manager.new w).1.1.
Proof.
  unfold Manager.new. apply setupDBus_registry_ok.
  apply registry_ok_spec. cbn. split.
  - intros p a Hp. rewrite lookup_empty in Hp. discriminate.
  - intros a d Ha. rewrite lookup_empty in Ha. discriminate.
Qed.

(** X11.  [scanDevices] and [setupDBus] keep registry and objects in
    agreement, however often a path is listed and whatever was tracked
    before. *)
Theorem scanning_keeps_registry_ok (s : Manager.state) (w : W) :
  registry_ok s ->
  registry_ok (Manager.scanDevices s w).1.1
  /\ registry_ok (Manager.setupDBus s w).1.1.
Proof.
  intros Hok. split.
  - apply scanDevices_facts. exact Hok.
  - apply setupDBus_registry_ok. exact Hok.
Qed.

(** X12.  The two notification handlers and the health check keep
    registry and objects in agreement whenever they return: a removal
    takes the entry and its object away together, and no other entry
    pointed to that object. *)
Theorem notifications_keep_registry_ok (s : Manager.state) (w : W) :
  registry_ok s ->
  (forall obj r,
     Manager.deviceAdded obj s w = Some r -> registry_ok r.1.1)
  /\ (forall obj r,
        Manager.deviceRemoved obj s w = Some r -> registry_ok r.1.1)
  /\ (forall r, Manager.checkUDisks s w = Some r -> registry_ok r.1.1).
Proof.
  intros Hok. split; [|split].
  - intros obj r. unfold Manager.deviceAdded.
    destruct (Manager.dbus (Manager.self s)) as [i|]; [|discriminate].
    io_unfold. intros [= <-].
    destruct (uDisks2.isValid i w); [|exact Hok]. cbn [negb].
    destruct (startsWith obj _); [exact Hok|].
    pose proof (proj2 (proj2 (proj2 (scanDevices_facts s w))) Hok) as H.
    destruct (Manager.scanDevices s w) as [[s' w'] tr]. exact H.
  - intros obj r. unfold Manager.deviceRemoved.
    destruct (Manager.dbus (Manager.self s)) as [i|]; [|discriminate].
    io_unfold. intros [= <-].
    destruct (uDisks2.isValid i w); [|exact Hok]. cbn [negb].
    destruct (startsWith obj _); [exact Hok|].
    destruct (bool_decide _).
    + destruct (uDisks2.getDevices w) as [live w1].
      destruct (bool_decide (obj ∈ live)); [exact Hok|].
      pose proof (proj2 (proj2 (proj2
                    (scanDevices_facts (Manager.deleteTake obj s) w1)))
                    (registry_ok_deleteTake obj s Hok)) as H.
      destruct (Manager.scanDevices (Manager.deleteTake obj s) w1)
        as [[s' w'] tr]. exact H.
    + pose proof (proj2 (proj2 (proj2 (scanDevices_facts s w))) Hok) as H.
      destruct (Manager.scanDevices s w) as [[s' w'] tr]. exact H.
  - intros r. unfold Manager.checkUDisks.
    destruct (uDisks2.isConnected w); cbn [negb].
    + destruct (Manager.dbus (Manager.self s)) as [i|]; [|discriminate].
      destruct (uDisks2.isValid i w); cbn [negb]; intros [= <-];
        [exact Hok|].
      apply scanDevices_facts. exact Hok.
    + intros [= <-]. apply setupDBus_registry_ok. exact Hok.
Qed.


Lemma deleteTake_facts (obj : string) (s : Manager.state) :
  Manager.tracked (Manager.deleteTake obj s) = Manager.tracked s ∖ {[obj]}
  /\ Manager.dbus (Manager.self (Manager.deleteTake obj s))
     = Manager.dbus (Manager.self s)
  /\ (registry_ok s ->
      forall q b d,
        q <> obj ->
        Manager.devices (Manager.self s) !! q = Some b ->
        Manager.heap s !! b = Some d ->
        Manager.devices (Manager.self (Manager.deleteTake obj s)) !! q
        = Some b
        /\ Manager.heap (Manager.deleteTake obj s) !! b = Some d).
Proof.
  unfold Manager.deleteTake, Manager.tracked.
  destruct (Manager.devices (Manager.self s) !! obj) as [a|] eqn:Ho; cbn.
  - split; [apply dom_delete_L|]. split; [reflexivity|].
    intros Hok q b d Hne Hq Hb. apply registry_ok_spec in Hok as [H1 H2].
    split.
    + rewrite lookup_delete_ne by congruence. exact Hq.
    + rewrite lookup_delete_ne; [exact Hb|].
      intros <-. destruct (H1 obj a Ho) as (da & Ha & Hpa).
      destruct (H1 q a Hq) as (dq & Ha' & Hpq). congruence.
  - split; [|auto].
    apply not_elem_of_dom in Ho. set_solver.
Qed.

(** X13.  Once the presence handle exists, nothing replaces or clears
    it: [scanDevices], [setupDBus], both notification handlers and the
    health check all return a manager with the same handle. *)
Theorem handle_is_kept (s : Manager.state) (w : W) (i : QDBusInterface) :
  Manager.dbus (Manager.self s) = Some i ->
  Manager.dbus (Manager.self (Manager.scanDevices s w).1.1) = Some i
  /\ Manager.dbus (Manager.self (Manager.setupDBus s w).1.1) = Some i
  /\ (forall obj r,
        Manager.deviceAdded obj s w = Some r ->
        Manager.dbus (Manager.self r.1.1) = Some i)
  /\ (forall obj r,
        Manager.deviceRemoved obj s w = Some r ->
        Manager.dbus (Manager.self r.1.1) = Some i)
  /\ (forall r,
        Manager.checkUDisks s w = Some r ->
        Manager.dbus (Manager.self r.1.1) = Some i).
Proof.
  intros Hd.
  assert (Hscan : forall s0 w0,
            Manager.dbus (Manager.self s0) = Some i ->
            Manager.dbus (Manager.self (Manager.scanDevices s0 w0).1.1)
            = Some i).
  { intros s0 w0 H0. destruct (scanDevices_facts s0 w0) as (_ & H & _).
    congruence. }
  assert (Hsetup : Manager.dbus (Manager.self (Manager.setupDBus s w).1.1)
                   = Some i).
  { unfold Manager.setupDBus. destruct (uDisks2.isConnected w);
      [|exact Hd].
    apply Hscan. cbn. rewrite Hd. reflexivity. }
  split; [exact (Hscan s w Hd)|]. split; [exact Hsetup|].
  split; [|split].
  - intros obj r. unfold Manager.deviceAdded. rewrite Hd. io_unfold.
    intros [= <-].
    destruct (uDisks2.isValid i w); [|exact Hd]. cbn [negb].
    destruct (startsWith obj _); [exact Hd|].
    pose proof (Hscan s w Hd) as H.
    destruct (Manager.scanDevices s w) as [[s' w'] tr]. exact H.
  - intros obj r. unfold Manager.deviceRemoved. rewrite Hd. io_unfold.
    intros [= <-].
    destruct (uDisks2.isValid i w); [|exact Hd]. cbn [negb].
    destruct (startsWith obj _); [exact Hd|].
    destruct (bool_decide _).
    + destruct (uDisks2.getDevices w) as [live w1].
      destruct (bool_decide (obj ∈ live)); [exact Hd|].
      assert (H0 : Manager.dbus (Manager.self (Manager.deleteTake obj s))
                   = Some i)
        by (destruct (deleteTake_facts obj s) as (_ & H0 & _); congruence).
      pose proof (Hscan _ w1 H0) as H.
      destruct (Manager.scanDevices (Manager.deleteTake obj s) w1)
        as [[s' w'] tr]. exact H.
    + pose proof (Hscan s w Hd) as H.
      destruct (Manager.scanDevices s w) as [[s' w'] tr]. exact H.
  - intros r. unfold Manager.checkUDisks. rewrite Hd.
    destruct (uDisks2.isConnected w); cbn [negb].
    + destruct (uDisks2.isValid i w); cbn [negb]; intros [= <-];
        [exact Hd | exact (Hscan s w Hd)].
    + intros [= <-]. exact Hsetup.
Qed.

(** X14.  A removal that is confirmed (valid handle, path not under
    jobs, path tracked, and absent from the handler's own enumeration)
    leaves as tracked paths the former ones without the removed path,
    together with the paths of the enumeration [scanDevices] then makes.
    So the removed path is tracked afterwards exactly when that second
    enumeration lists it again. *)
Theorem deviceRemoved_tracked_after (obj : string) (s : Manager.state)
    (w : W) (i : QDBusInterface) (a : Manager.addr) :
  Manager.dbus (Manager.self s) = Some i ->
  uDisks2.isValid i w = true ->
  startsWith obj (uDisks2.DBUS_PATH +:+ "/jobs") = false ->
  Manager.devices (Manager.self s) !! obj = Some a ->
  obj ∉ (uDisks2.getDevices w).1 ->
  forall r,
    Manager.deviceRemoved obj s w = Some r ->
    let again := (uDisks2.getDevices (uDisks2.getDevices w).2).1 in
    Manager.tracked r.1.1
    = (Manager.tracked s ∖ {[obj]}) ∪ list_to_set again
    /\ (obj ∈ Manager.tracked r.1.1 <-> obj ∈ again).
Proof.
  intros Hd Hv Hj Ha Hgone r. unfold Manager.deviceRemoved.
  rewrite Hd. io_unfold. rewrite Hv, Hj, Ha. cbn [negb].
  rewrite bool_decide_eq_true_2 by eauto.
  destruct (uDisks2.getDevices w) as [live w1]. cbn [fst snd] in *.
  rewrite bool_decide_eq_false_2 by exact Hgone.
  destruct (scanDevices_facts (Manager.deleteTake obj s) w1) as (Ht & _).
  destruct (deleteTake_facts obj s) as (Hdel & _).
  destruct (Manager.scanDevices (Manager.deleteTake obj s) w1)
    as [[s' w'] tr].
  intros [= <-]. cbn [fst snd] in *. cbv zeta.
  rewrite Ht, Hdel. split; [reflexivity|].
  rewrite elem_of_union, elem_of_difference, elem_of_list_to_set.
  rewrite elem_of_singleton. tauto.
Qed.

(** X15.  No notification and no health check disturbs a tracked device
    other than the one a removal names: in a registry that agrees with
    its objects, such a device keeps its object and the object its
    state. *)
Theorem other_devices_undisturbed (s : Manager.state) (w : W)
    (q : string) (b : Manager.addr) (d : Device.t) :
  registry_ok s ->
  Manager.devices (Manager.self s) !! q = Some b ->
  Manager.heap s !! b = Some d ->
  (forall obj r,
     Manager.deviceAdded obj s w = Some r ->
     Manager.devices (Manager.self r.1.1) !! q = Some b
     /\ Manager.heap r.1.1 !! b = Some d)
  /\ (forall obj r,
        obj <> q ->
        Manager.deviceRemoved obj s w = Some r ->
        Manager.devices (Manager.self r.1.1) !! q = Some b
        /\ Manager.heap r.1.1 !! b = Some d)
  /\ (forall r,
        Manager.checkUDisks s w = Some r ->
        Manager.devices (Manager.self r.1.1) !! q = Some b
        /\ Manager.heap r.1.1 !! b = Some d).
Proof.
  intros Hok Hq Hb.
  assert (Hscan : forall s0 w0,
            Manager.devices (Manager.self s0) !! q = Some b ->
            Manager.heap s0 !! b = Some d ->
            Manager.devices
              (Manager.self (Manager.scanDevices s0 w0).1.1) !! q = Some b
            /\ Manager.heap (Manager.scanDevices s0 w0).1.1 !! b = Some d).
  { intros s0 w0 H1 H2.
    destruct (scanDevices_facts s0 w0) as (_ & _ & H & _). eauto. }
  split; [|split].
  - intros obj r. unfold Manager.deviceAdded.
    destruct (Manager.dbus (Manager.self s)) as [i|]; [|discriminate].
    io_unfold. intros [= <-].
    destruct (uDisks2.isValid i w); [|auto]. cbn [negb].
    destruct (startsWith obj _); [auto|].
    pose proof (Hscan s w Hq Hb) as H.
    destruct (Manager.scanDevices s w) as [[s' w'] tr]. exact H.
  - intros obj r Hne. unfold Manager.deviceRemoved.
    destruct (Manager.dbus (Manager.self s)) as [i|]; [|discriminate].
    io_unfold. intros [= <-].
    destruct (uDisks2.isValid i w); [|auto]. cbn [negb].
    destruct (startsWith obj _); [auto|].
    destruct (bool_decide _).
    + destruct (uDisks2.getDevices w) as [live w1].
      destruct (bool_decide (obj ∈ live)); [auto|].
      destruct (deleteTake_facts obj s) as (_ & _ & Hdel).
      destruct (Hdel Hok q b d ltac:(congruence) Hq Hb) as [Hq' Hb'].
      pose proof (Hscan _ w1 Hq' Hb') as H.
      destruct (Manager.scanDevices (Manager.deleteTake obj s) w1)
        as [[s' w'] tr]. exact H.
    + pose proof (Hscan s w Hq Hb) as H.
      destruct (Manager.scanDevices s w) as [[s' w'] tr]. exact H.
  - intros r. unfold Manager.checkUDisks.
    destruct (uDisks2.isConnected w) eqn:Hc; cbn [negb].
    + destruct (Manager.dbus (Manager.self s)) as [i|]; [|discriminate].
      destruct (uDisks2.isValid i w); cbn [negb]; intros [= <-];
        [auto | exact (Hscan s w Hq Hb)].
    + intros [= <-]. unfold Manager.setupDBus. rewrite Hc. auto.
Qed.


Lemma startsWith_append (p t : string) : startsWith (p +:+ t) p = true.
Proof.
  unfold startsWith. induction p as [|c p IH].
  - destruct t; reflexivity.
  - change (String.prefix (String c p) (String c p +:+ t))
      with (if ascii_dec c c then String.prefix p (p +:+ t) else false).
    destruct (ascii_dec c c); [exact IH | contradiction].
Qed.

(** X16.  The jobs test is a test on the beginning of the path: any
    path that starts with the service path followed by "/jobs", whatever
    comes after (a job, or an object whose name merely starts with
    "jobs"), is ignored by both handlers, also when it is tracked. *)
Theorem jobs_prefix_is_ignored (t : string) (s : Manager.state) (w : W)
    (i : QDBusInterface) :
  Manager.dbus (Manager.self s) = Some i ->
  Manager.deviceAdded ((uDisks2.DBUS_PATH +:+ "/jobs") +:+ t) s w
  = Some (s, w, [])
  /\ Manager.deviceRemoved ((uDisks2.DBUS_PATH +:+ "/jobs") +:+ t) s w
     = Some (s, w, []).
Proof.
  intros Hd. unfold Manager.deviceAdded, Manager.deviceRemoved.
  rewrite Hd. io_unfold. rewrite startsWith_append.
  destruct (uDisks2.isValid i w); split; reflexivity.
Qed.

(** X17.  The health check acts in one case only: bus connected and
    presence handle not valid, where it is one run of [scanDevices].
    With the bus not connected it changes nothing: the connection step
    it calls tests the connection again and gives up, so no handle is
    made and nothing is enumerated.  With a valid handle it does nothing.
    With the bus connected and no handle ever made, it dereferences the
    null handle. *)
Theorem checkUDisks_effect (s : Manager.state) (w : W) :
  (uDisks2.isConnected w = false ->
   Manager.checkUDisks s w = Some (s, w, []))
  /\ (uDisks2.isConnected w = true ->
      Manager.dbus (Manager.self s) = None ->
      Manager.checkUDisks s w = None)
  /\ (forall i,
        uDisks2.isConnected w = true ->
        Manager.dbus (Manager.self s) = Some i ->
        (uDisks2.isValid i w = true ->
         Manager.checkUDisks s w = Some (s, w, []))
        /\ (uDisks2.isValid i w = false ->
            Manager.checkUDisks s w = Some (Manager.scanDevices s w))).
Proof.
  unfold Manager.checkUDisks, Manager.setupDBus. split; [|split].
  - intros ->. reflexivity.
  - intros -> ->. reflexivity.
  - intros i -> ->. split; intros ->; reflexivity.
Qed.

(** X18.  The constructor on a bus that is not connected returns a
    manager with no handle and nothing tracked, having asked and emitted
    nothing.  On a connected bus it returns a manager that tracks exactly
    the enumerated paths, holds the handle on the object manager of the
    service, and has emitted [updatedDevices] once and no other signal of
    its own. *)
Theorem new_manager_tracks_enumeration (w : W) :
  (uDisks2.isConnected w = false ->
   Manager.new w
   = ({| Manager.self := {| Manager.devices := ∅; Manager.dbus := None |};
         Manager.heap := ∅ |}, w, []))
  /\ (uDisks2.isConnected w = true ->
      let '(s, _, tr) := Manager.new w in
      Manager.tracked s = list_to_set (uDisks2.getDevices w).1
      /\ Manager.dbus (Manager.self s)
         = Some {| service := uDisks2.DBUS_SERVICE;
                   object := uDisks2.DBUS_PATH;
                   interface := uDisks2.DBUS_OBJMANAGER |}
      /\ Manager.signals tr = [Manager.updatedDevices]).
Proof.
  unfold Manager.new, Manager.setupDBus. split; intros ->; [reflexivity|].
  cbn [Manager.dbus Manager.self Manager.devices Manager.heap].
  match goal with
  | |- context [Manager.scanDevices ?s0 w] =>
      destruct (scanDevices_facts s0 w) as (Ht & Hd & _);
      pose proof (scanDevices_signals s0 w) as Hs;
      destruct (Manager.scanDevices s0 w) as [[s w'] tr]
  end.
  cbn [fst snd] in *. rewrite Ht, Hd.
  unfold Manager.tracked. cbn. rewrite dom_empty_L.
  split; [set_solver|]. split; [reflexivity | exact Hs].
Qed.

Lemma refreshed_app (a b : list Manager.event) :
  refreshed (a ++ b) = refreshed a ++ refreshed b.
Proof. unfold refreshed. rewrite mrequests_app. apply omap_app. Qed.

(** The constructor starts at most one refresh, for its own path. *)
Lemma new_refreshed (p : string) (w : W) :
  refreshed (Manager.ofDevice <$> (Device.new p w).2) = []
  \/ refreshed (Manager.ofDevice <$> (Device.new p w).2) = [p].
Proof.
  unfold Device.new, refreshed.
  match goal with
  | |- context [Device.updateDeviceProperties ?d0 w] =>
      destruct (uDisks2.isValid (Device.dbus d0) w) eqn:Hv;
      [ destruct (updateDeviceProperties_valid d0 w Hv)
          as (d & w' & -> & _ & _)
      | rewrite (updateDeviceProperties_invalid d0 w Hv) ]
  end.
  - right. cbn [snd]. rewrite mrequests_ofDevice, requests_app.
    rewrite requests_calls, requests_emits. reflexivity.
  - left. reflexivity.
Qed.

Lemma scanLoop_refreshed (l : list string) :
  forall (s : Manager.state) (w : W),
    NoDup (refreshed (Manager.scanLoop l s w).2)
    /\ (forall p, p ∈ refreshed (Manager.scanLoop l s w).2 ->
                  p ∈ l /\ p ∉ Manager.tracked s).
Proof.
  induction l as [|p l IH]; intros s w.
  - cbn. split; [apply NoDup_nil_2|].
    intros q Hq. apply elem_of_nil in Hq. contradiction.
  - cbn [Manager.scanLoop].
    destruct (Manager.devices (Manager.self s) !! p) as [a|] eqn:Hp.
    + destruct (IH s w) as [Hn Hin]. split; [exact Hn|].
      intros q Hq. destruct (Hin q Hq). split; [|assumption].
      apply elem_of_cons. auto.
    + io_unfold.
      pose proof (new_refreshed p w) as Hnew.
      destruct (Device.new p w) as [[d w1] tr0]. cbn [snd] in Hnew.
      destruct (IH (Manager.track p d s) w1) as [Hn Hin].
      destruct (Manager.scanLoop l (Manager.track p d s) w1)
        as [[s' w'] tr].
      cbn [snd] in *. rewrite refreshed_app.
      assert (Hnot : p ∉ Manager.tracked s).
      { unfold Manager.tracked. intros H.
        apply elem_of_dom in H as [? H]. congruence. }
      assert (Hlater : forall q, q ∈ refreshed tr ->
                q ∈ l /\ q <> p /\ q ∉ Manager.tracked s).
      { intros q Hq. destruct (Hin q Hq) as [Hl Ht].
        rewrite tracked_track in Ht. set_solver. }
      destruct Hnew as [-> | ->]; cbn [app].
      * split; [exact Hn|]. intros q Hq.
        destruct (Hlater q Hq) as (? & _ & ?).
        split; [apply elem_of_cons; auto | assumption].
      * split.
        -- apply NoDup_cons. split; [|exact Hn].
           intros Hq. destruct (Hlater p Hq) as (_ & ? & _). congruence.
        -- intros q Hq. apply elem_of_cons in Hq as [->|Hq].
           ++ split; [apply elem_of_cons; auto | exact Hnot].
           ++ destruct (Hlater q Hq) as (? & _ & ?).
              split; [apply elem_of_cons; auto | assumption].
Qed.

(** X19.  One run of [scanDevices] starts at most one refresh per path,
    and only for paths that the enumeration lists and that were not
    tracked before, also when the enumeration lists a path more than
    once. *)
Theorem scanDevices_builds_each_path_once (s : Manager.state) (w : W) :
  NoDup (refreshed (Manager.scanDevices s w).2)
  /\ (forall p, p ∈ refreshed (Manager.scanDevices s w).2 ->
                p ∈ (uDisks2.getDevices w).1 /\ p ∉ Manager.tracked s).
Proof.
  rewrite scanDevices_unfold.
  destruct (uDisks2.getDevices w) as [found w0].
  pose proof (scanLoop_refreshed found s w0) as H.
  destruct (Manager.scanLoop found s w0) as [[s' w'] tr].
  cbn [fst snd] in *.
  change (?a :: ?b ++ ?c) with ([a] ++ b ++ c).
  rewrite !refreshed_app. cbn [app].
  change (refreshed [_]) with (@nil string). rewrite app_nil_r.
  exact H.
Qed.

End ManagerInvariants.

(** ** The connections between a device and the manager *)

Section Connections.
Context {W : Type} {udisks : uDisks2.Service W}.

(** X21.  A mount that the adapter refuses, on a device wired to the
    manager, reaches the listeners of the manager as exactly one
    [deviceErrorMessage], with the path of the device and the reply of
    the adapter. *)
Theorem refused_mount_reaches_manager (d : Device.t) (w : W) :
  uDisks2.isValid (Device.dbus d) w = true ->
  Device.mountpoint d = EmptyString ->
  (uDisks2.mountDevice (Device.path d) w).1 <> EmptyString ->
  Manager.signals (forward (Device.mount d w).2)
  = [Manager.deviceErrorMessage (Device.path d)
       (uDisks2.mountDevice (Device.path d) w).1].
Proof.
  intros Hv Hm Hr. rewrite mount_run, Hv, Hm. cbn [negb orb isEmpty].
  destruct (uDisks2.mountDevice (Device.path d) w) as [reply w1].
  cbn [fst] in *. apply isEmpty_false in Hr. rewrite Hr. reflexivity.
Qed.

End Connections.

(** ** More runs on the simulated service *)

Section MoreRuns.

Lemma slots_signal_own_path_witness :
  Device.errorMessage Sim.sdb1 "not authorized"
    ∈ Device.signals (Device.mount Sim.usb Sim.refused).2
  /\ Device.signalPath (Device.errorMessage Sim.sdb1 "not authorized")
     = Device.path Sim.usb.
Proof.
  assert (Hin : Device.errorMessage Sim.sdb1 "not authorized"
                  ∈ Device.signals (Device.mount Sim.usb Sim.refused).2)
    by (vm_compute; repeat constructor).
  split; [exact Hin|].
  apply (slots_signal_own_path Sim.usb Sim.refused). left. exact Hin.
Defined.

Lemma stale_device_ignores_slots_witness :
  uDisks2.isValid (Device.dbus Sim.usbMounted) Sim.down = false
  /\ Device.mount Sim.usbMounted Sim.down = (Sim.usbMounted, Sim.down, [])
  /\ Device.unmount Sim.usbMounted Sim.down
     = (Sim.usbMounted, Sim.down, [])
  /\ Device.eject Sim.usbMounted Sim.down = (Sim.usbMounted, Sim.down, [])
  /\ Device.handlePropertiesChanged Sim.usbMounted Sim.down
     = (Sim.usbMounted, Sim.down, []).
Proof.
  split; [reflexivity|].
  apply (stale_device_ignores_slots Sim.usbMounted Sim.down). reflexivity.
Defined.

Lemma new_without_service_witness :
  Device.new Sim.sdb1 Sim.down
  = (Sim.deviceIn Sim.sdb1 Sim.down, Sim.down, [])
  /\ Device.name (Sim.deviceIn Sim.sdb1 Sim.down) = EmptyString.
Proof.
  split; [reflexivity|].
  pose proof (new_without_service Sim.sdb1 Sim.down eq_refl) as H.
  unfold Sim.deviceIn.
  destruct (Device.new Sim.sdb1 Sim.down) as [[d w'] tr].
  exact (proj1 (proj2 (proj2 (proj2 H)))).
Defined.


Lemma unmount_success_is_announced_witness :
  uDisks2.isValid (Device.dbus Sim.usbMounted) Sim.stickMounted = true
  /\ Device.mountpoint Sim.usbMounted <> EmptyString
  /\ Device.mountpointChanged Sim.sdb1 EmptyString
       ∈ Device.signals (Device.unmount Sim.usbMounted Sim.stickMounted).2.
Proof.
  assert (Hm : Device.mountpoint Sim.usbMounted <> EmptyString)
    by discriminate.
  split; [reflexivity|]. split; [exact Hm|].
  pose proof (unmount_success_is_announced Sim.usbMounted Sim.stickMounted
                eq_refl Hm) as H.
  cbn [uDisks2.unmountDevice Sim.service] in H.
  destruct (Device.updateDeviceProperties Sim.usbMounted _)
    as [[d1 w2] tr1] eqn:E.
  vm_compute in E. injection E as <- _ _.
  exact (H eq_refl eq_refl).
Defined.


Lemma refresh_dev_is_last_segment_witness :
  uDisks2.isValid (Device.dbus Sim.usb) Sim.stick = true
  /\ forall a b,
       Device.dev (Device.updateDeviceProperties Sim.usb Sim.stick).1.1
       <> a +:+ "/" +:+ b.
Proof.
  split; [reflexivity|].
  exact (proj2 (refresh_dev_is_last_segment Sim.usb Sim.stick eq_refl)).
Defined.

Lemma scanning_keeps_registry_ok_witness :
  registry_ok (Sim.managerIn Sim.stick)
  /\ registry_ok
       (Manager.scanDevices (Sim.managerIn Sim.stick) Sim.disc).1.1.
Proof.
  assert (Hok : registry_ok (Sim.managerIn Sim.stick))
    by (apply (bool_decide_unpack _); vm_compute; exact I).
  split; [exact Hok|].
  exact (proj1 (scanning_keeps_registry_ok (Sim.managerIn Sim.stick)
                  Sim.disc Hok)).
Defined.

Lemma notifications_keep_registry_ok_witness :
  registry_ok stickAndDisc
  /\ exists r,
       Manager.deviceRemoved Sim.sr0 stickAndDisc Sim.stick = Some r
       /\ registry_ok r.1.1.
Proof.
  assert (Hok : registry_ok stickAndDisc)
    by (apply (bool_decide_unpack _); vm_compute; exact I).
  split; [exact Hok|].
  destruct (Manager.deviceRemoved Sim.sr0 stickAndDisc Sim.stick)
    as [r|] eqn:E; [|vm_compute in E; discriminate].
  exists r. split; [reflexivity|].
  exact (proj1 (proj2 (notifications_keep_registry_ok stickAndDisc
                         Sim.stick Hok)) Sim.sr0 r E).
Defined.

Lemma handle_is_kept_witness :
  Manager.dbus (Manager.self (Sim.managerIn Sim.stick))
  = Some {| service := "org.freedesktop.UDisks2";
            object := "/org/freedesktop/UDisks2";
            interface := "org.freedesktop.DBus.ObjectManager" |}
  /\ Manager.dbus
       (Manager.self
          (Manager.scanDevices (Sim.managerIn Sim.stick) Sim.disc).1.1)
     = Some {| service := "org.freedesktop.UDisks2";
               object := "/org/freedesktop/UDisks2";
               interface := "org.freedesktop.DBus.ObjectManager" |}.
Proof.
  split; [reflexivity|].
  exact (proj1 (handle_is_kept (Sim.managerIn Sim.stick) Sim.disc _
                  eq_refl)).
Defined.

Lemma deviceRemoved_tracked_after_witness :
  exists r,
    Manager.deviceRemoved Sim.sdb1 (Sim.managerIn Sim.stick) Sim.disc
    = Some r
    /\ Manager.tracked r.1.1
       = (Manager.tracked (Sim.managerIn Sim.stick) ∖ {[Sim.sdb1]})
           ∪ list_to_set [Sim.sr0].
Proof.
  destruct (Manager.deviceRemoved Sim.sdb1 (Sim.managerIn Sim.stick)
              Sim.disc) as [r|] eqn:Hr; [|vm_compute in Hr; discriminate].
  exists r. split; [reflexivity|].
  refine (proj1 (deviceRemoved_tracked_after Sim.sdb1
                   (Sim.managerIn Sim.stick) Sim.disc _ 1%positive
                   eq_refl eq_refl eq_refl _ _ r Hr)).
  - vm_compute. reflexivity.
  - cbn. intros Hin.
    repeat (apply elem_of_cons in Hin as [Hin|Hin]; [discriminate|]).
    apply elem_of_nil in Hin. exact Hin.
Defined.

Lemma other_devices_undisturbed_witness :
  exists r,
    Manager.deviceRemoved Sim.sr0 stickAndDisc Sim.stick = Some r
    /\ Manager.devices (Manager.self r.1.1) !! Sim.sdb1 = Some 1%positive
    /\ Manager.heap r.1.1 !! 1%positive = Some Sim.usb.
Proof.
  assert (Hok : registry_ok stickAndDisc)
    by (apply (bool_decide_unpack _); vm_compute; exact I).
  assert (Hq : Manager.devices (Manager.self stickAndDisc) !! Sim.sdb1
               = Some 1%positive) by (vm_compute; reflexivity).
  assert (Hb : Manager.heap stickAndDisc !! 1%positive = Some Sim.usb)
    by (vm_compute; reflexivity).
  destruct (Manager.deviceRemoved Sim.sr0 stickAndDisc Sim.stick)
    as [r|] eqn:E; [|vm_compute in E; discriminate].
  exists r. split; [reflexivity|].
  apply (proj1 (proj2 (other_devices_undisturbed stickAndDisc Sim.stick
                         Sim.sdb1 1%positive Sim.usb Hok Hq Hb)) Sim.sr0);
    [discriminate | exact E].
Defined.

Lemma jobs_prefix_is_ignored_witness :
  Manager.deviceAdded Sim.job7 (Sim.managerIn Sim.stick) Sim.disc
  = Some (Sim.managerIn Sim.stick, Sim.disc, [])
  /\ Manager.deviceRemoved Sim.job7 (Sim.managerIn Sim.stick) Sim.disc
     = Some (Sim.managerIn Sim.stick, Sim.disc, []).
Proof.
  exact (jobs_prefix_is_ignored "/7" (Sim.managerIn Sim.stick) Sim.disc _
           eq_refl).
Defined.

Lemma checkUDisks_effect_witness :
  Manager.checkUDisks (udisks := Bare.service) Bare.unstarted false
  = Some (Bare.unstarted, false, [])
  /\ Manager.checkUDisks (udisks := Bare.service) Bare.unstarted true
     = None
  /\ Manager.checkUDisks (Sim.managerIn Sim.stick) Sim.down
     = Some (Manager.scanDevices (Sim.managerIn Sim.stick) Sim.down).
Proof.
  split; [|split].
  - apply (proj1 (@checkUDisks_effect bool Bare.service
                    Bare.unstarted false)).
    reflexivity.
  - apply (proj1 (proj2 (@checkUDisks_effect bool Bare.service
                           Bare.unstarted true))); reflexivity.
  - refine (proj2 (proj2 (proj2 (checkUDisks_effect
                                   (Sim.managerIn Sim.stick) Sim.down))
                           _ _ _) _); reflexivity.
Defined.

Lemma new_manager_tracks_enumeration_witness :
  Manager.dbus (Manager.self Bare.unstarted) = None
  /\ Manager.signals (Manager.new Sim.stick).2 = [Manager.updatedDevices].
Proof.
  split.
  - unfold Bare.unstarted.
    rewrite (proj1 (@new_manager_tracks_enumeration bool Bare.service
                      false) eq_refl).
    reflexivity.
  - pose proof (proj2 (new_manager_tracks_enumeration Sim.stick) eq_refl)
      as H.
    destruct (Manager.new Sim.stick) as [[s w'] tr].
    exact (proj2 (proj2 H)).
Defined.

Lemma refused_mount_reaches_manager_witness :
  Manager.signals (forward (Device.mount Sim.usb Sim.refused).2)
  = [Manager.deviceErrorMessage Sim.sdb1 "not authorized"].
Proof.
  assert (Hr : (uDisks2.mountDevice (Device.path Sim.usb) Sim.refused).1
               <> EmptyString) by discriminate.
  exact (refused_mount_reaches_manager Sim.usb Sim.refused
           eq_refl eq_refl Hr).
Defined.

End MoreRuns.
